(** * react-popout: the batching scheduler and the placement geometry

    A shallow embedding of [src/scheduler.ts] (the read/write batching
    scheduler) and of the geometry functions of the popout component
    ([calculatePosition], [checkBoundaryOutOfBounds], [isContained] and the
    measuring callback of [positionPopout]).

    Numbers.  The source computes on JavaScript numbers, IEEE 754 doubles.
    In [Geometry] they are modelled as integers [Z]: the results proved there
    rest on the case structure and on comparisons, which read the same on
    doubles.  Where a property depends on the arithmetic itself, [Doubles]
    has the same formulas on binary64 numbers. *)

From Stdlib Require Import ZArith List Bool Lia.
From Stdlib Require String Ascii PrimFloat.
Import ListNotations.

(* ================================================================== *)
(** * Geometry *)
(* ================================================================== *)

Module Geometry.

Local Open Scope Z_scope.

(** [ClientRect] of the DOM: what [getBoundingClientRect()] returns. *)
Record ClientRect : Type := mkClientRect {
  cbottom : Z;
  cheight : Z;
  cleft : Z;
  cright : Z;
  ctop : Z;
  cwidth : Z
}.

(** [type Dimensions = Pick<ClientRect, 'height' | 'width'>] *)
Record Dimensions : Type := mkDimensions {
  height : Z;
  width : Z
}.

(** An object with exactly the four keys [bottom], [left], [right], [top].
    [Position] is this shape over numbers, and the source's
    [{ [K in Direction]: boolean }] is the same shape over booleans. *)
Record Sides (A : Type) : Type := mkSides {
  bottom : A;
  left : A;
  right : A;
  top : A
}.
Arguments mkSides {A} _ _ _ _.
Arguments bottom {A} _.
Arguments left {A} _.
Arguments right {A} _.
Arguments top {A} _.

(** [type Position = Pick<ClientRect, Exclude<keyof ClientRect, 'height' | 'width'>>] *)
Definition Position : Type := Sides Z.

(** [type Direction = keyof Position] *)
Inductive Direction : Type := Bottom | Left | Right | Top.

(** Property access [obj[direction]]. *)
Definition get {A : Type} (obj : Sides A) (d : Direction) : A :=
  match d with
  | Bottom => bottom obj
  | Left => left obj
  | Right => right obj
  | Top => top obj
  end.

(** [Object.keys(obj)]: the keys in the order the object literal lists them. *)
Definition keys : list Direction := [Bottom; Left; Right; Top].

(** Structural subtyping: a [ClientRect] passed where a [Position] or a
    [Dimensions] is expected. *)
Definition asPosition (r : ClientRect) : Position :=
  {| bottom := cbottom r; left := cleft r; right := cright r; top := ctop r |}.

Definition asDimensions (r : ClientRect) : Dimensions :=
  {| height := cheight r; width := cwidth r |}.

Definition oppositeDirection (d : Direction) : Direction :=
  match d with
  | Bottom => Top
  | Left => Right
  | Right => Left
  | Top => Bottom
  end.

Definition padding : Z := 12.

Definition calculatePosition
    (anchor : Position) (dimensions : Dimensions) (direction : Direction)
    : Position :=
  match direction with
  | Bottom =>
      {| bottom := bottom anchor + padding + height dimensions;
         left := left anchor;
         right := left anchor + width dimensions;
         top := bottom anchor + padding |}
  | Left =>
      {| bottom := top anchor + height dimensions;
         left := left anchor - padding - width dimensions;
         right := left anchor - padding;
         top := top anchor |}
  | Right =>
      {| bottom := top anchor + height dimensions;
         left := right anchor + padding;
         right := right anchor + padding + width dimensions;
         top := top anchor |}
  | Top =>
      {| bottom := top anchor - padding;
         left := left anchor;
         right := left anchor + width dimensions;
         top := top anchor - padding - height dimensions |}
  end.

(** JavaScript [a > b] and [a < b] on numbers. *)
Definition lt (a b : Z) : bool := Z.ltb a b.
Definition gt (a b : Z) : bool := Z.ltb b a.

Definition checkBoundaryOutOfBounds (rect boundary : Position) : Sides bool :=
  {| bottom := gt (bottom rect) (bottom boundary) || gt (top rect) (bottom boundary);
     left := lt (left rect) (left boundary) || lt (right rect) (left boundary);
     right := gt (left rect) (right boundary) || gt (right rect) (right boundary);
     top := lt (top rect) (top boundary) || lt (bottom rect) (top boundary) |}.

(** [!Object.keys(sides).some(side => sides[side])] *)
Definition isContained (rect boundary : ClientRect) : bool :=
  let outOufBoundsSides :=
    checkBoundaryOutOfBounds (asPosition rect) (asPosition boundary) in
  negb (existsb (fun side => get outOufBoundsSides side) keys).

(** ** The measuring callback of [positionPopout] *)

(** [flipFailureRecovery?: 'original' | 'scrollable'] *)
Inductive FlipFailureRecovery : Type := original | scrollable.

(** [RefObject<T>]: its [current] is a [T] or [null]. *)
Definition RefObject (T : Type) : Type := option T.

(** [Measurable]: an element, seen through the rectangle it reports when the
    callback measures it. *)
Definition Measurable : Type := ClientRect.

(** The props of [Popout] that the positioning reads; the optional ones are
    [None] when the caller leaves them out. *)
Record PopoutProps : Type := mkProps {
  anchor : RefObject Measurable;
  boundary : option (RefObject Measurable);
  direction : option Direction;
  flip : option bool;
  flipFailureRecovery : option FlipFailureRecovery
}.

(** Destructuring with a default: [const { x = dflt } = props]. *)
Definition withDefault {A : Type} (dflt : A) (o : option A) : A :=
  match o with
  | Some a => a
  | None => dflt
  end.

(** [boundary && boundary.current]: the boundary element, when the prop is
    given and its ref is attached. *)
Definition suppliedBoundary (props : PopoutProps) : option Measurable :=
  match boundary props with
  | Some (Some el) => Some el
  | _ => None
  end.

(** The locals of the callback when it reaches its [write] calls: the
    rectangle it applies, the [flipped] flag, and [outOufBoundsSides], which
    exists only inside the [if (boundary && boundary.current)] block. *)
Record Placement : Type := mkPlacement {
  position : Position;
  flipped : bool;
  outOufBoundsSides : option (Sides bool)
}.

(** The body of the [read] callback, up to its [write] calls.  [None] is the
    early [return] taken when the anchor or the popout element is missing. *)
Definition positionPopout (props : PopoutProps) (popoutRef : RefObject Measurable)
    : option Placement :=
  let direction := withDefault Right (direction props) in
  let flip := withDefault false (flip props) in
  let flipFailureRecovery := withDefault original (flipFailureRecovery props) in
  match anchor props, popoutRef with
  | Some anchorRect, Some popoutRect =>
      let position :=
        calculatePosition (asPosition anchorRect) (asDimensions popoutRect) direction in
      match suppliedBoundary props with
      | Some boundaryRect =>
          let outOufBoundsSides :=
            checkBoundaryOutOfBounds position (asPosition boundaryRect) in
          if flip && get outOufBoundsSides direction then
            let opposite := oppositeDirection direction in
            let newPosition :=
              calculatePosition (asPosition anchorRect) (asDimensions popoutRect) opposite in
            let position :=
              if get (checkBoundaryOutOfBounds newPosition (asPosition boundaryRect)) opposite
              then
                match flipFailureRecovery with
                | original => position
                | scrollable =>
                    match opposite with
                    | Top => position
                    | Bottom => newPosition
                    | Left => position
                    | Right => newPosition
                    end
                end
              else newPosition in
            Some {| position := position; flipped := true;
                    outOufBoundsSides := Some outOufBoundsSides |}
          else
            Some {| position := position; flipped := false;
                    outOufBoundsSides := Some outOufBoundsSides |}
      | None =>
          Some {| position := position; flipped := false; outOufBoundsSides := None |}
      end
  | _, _ => None
  end.

(** The rectangle computed for the requested direction and the one for the
    opposite direction, from the measured anchor and popout. *)
Definition primaryPlacement (a p : Measurable) (d : Direction) : Position :=
  calculatePosition (asPosition a) (asDimensions p) d.

Definition flippedPlacement (a p : Measurable) (d : Direction) : Position :=
  calculatePosition (asPosition a) (asDimensions p) (oppositeDirection d).

(** The invariant of a rectangle: [top <= bottom] and [left <= right]. *)
Definition wellFormed (r : Position) : Prop :=
  top r <= bottom r /\ left r <= right r.

(** Integers on which the source's arithmetic is exact.  Doubles represent
    every integer up to 2^53 = 9007199254740992 in magnitude and add and
    subtract such integers without rounding while the result stays in that
    range; with inputs up to 2^51 = 2251799813685248 in magnitude every sum
    that [calculatePosition] forms stays in it. *)
Definition small (z : Z) : Prop :=
  - 2251799813685248 <= z <= 2251799813685248.



(** ** Sample measurements *)

(** The anchor, popout and boundaries of the worked examples: a 24 by 24
    anchor at (100, 100), a 50 by 50 popout, and three boundaries. *)
Definition sampleAnchor : Measurable :=
  {| cbottom := 124; cheight := 24; cleft := 100; cright := 124; ctop := 100; cwidth := 24 |}.

Definition samplePopout : Measurable :=
  {| cbottom := 50; cheight := 50; cleft := 0; cright := 50; ctop := 0; cwidth := 50 |}.

Definition wideBoundary : Measurable :=
  {| cbottom := 200; cheight := 200; cleft := 0; cright := 200; ctop := 0; cwidth := 200 |}.

Definition narrowBoundary : Measurable :=
  {| cbottom := 200; cheight := 200; cleft := 0; cright := 150; ctop := 0; cwidth := 150 |}.

Definition tightBoundary : Measurable :=
  {| cbottom := 140; cheight := 50; cleft := 90; cright := 140; ctop := 90; cwidth := 50 |}.

Definition sampleProps (b : option Measurable) (d : Direction) (f : bool)
    (r : FlipFailureRecovery) : PopoutProps :=
  {| anchor := Some sampleAnchor;
     boundary := option_map (@Some Measurable) b;
     direction := Some d;
     flip := Some f;
     flipFailureRecovery := Some r |}.

(** ** Moving and comparing rectangles *)

(** An element moved by [dx] to the right and [dy] down: its size stays. *)
Definition translateRect (dx dy : Z) (r : ClientRect) : ClientRect :=
  {| cbottom := cbottom r + dy; cheight := cheight r; cleft := cleft r + dx;
     cright := cright r + dx; ctop := ctop r + dy; cwidth := cwidth r |}.

(** [rect] lies within [boundary], edges included. *)
Definition contains (boundary rect : Position) : Prop :=
  top boundary <= top rect /\ bottom rect <= bottom boundary
  /\ left boundary <= left rect /\ right rect <= right boundary.

Definition noOverflow : Sides bool :=
  {| bottom := false; left := false; right := false; top := false |}.

(** ** The viewport *)

(** [viewport.getBoundingClientRect()], from [window.innerWidth] and
    [window.innerHeight]. *)
Definition viewport (innerWidth innerHeight : Z) : ClientRect :=
  {| cbottom := innerHeight;
     cheight := innerHeight;
     cleft := 0;
     cright := innerWidth;
     ctop := 0;
     cwidth := innerWidth |}.

(** ** The earlier revisions of the component *)

Module Earlier.

(** [viewport.getBoundingClientRect()] of the earlier revisions, which add
    the scroll offsets. *)
Definition viewport (innerWidth innerHeight scrollX scrollY : Z) : ClientRect :=
  {| cbottom := innerHeight + scrollY;
     cheight := innerHeight;
     cleft := scrollX;
     cright := innerWidth + scrollX;
     ctop := scrollY;
     cwidth := innerWidth |}.

(** [calculatePosition(anchor, dimensions)]: to the right only. *)
Definition calculatePosition (anchor : Position) (dimensions : Dimensions) : Position :=
  {| bottom := top anchor + height dimensions;
     left := padding + right anchor;
     right := padding + right anchor + width dimensions;
     top := top anchor |}.

(** The body of the [read] callback of the revision with a boundary and no
    flip, up to its [write] call: the position and [outOufBoundsSides], which
    is falsy unless the boundary is attached. *)
Definition positionPopout
    (anchor : RefObject Measurable) (boundary : option (RefObject Measurable))
    (popoutRef : RefObject Measurable)
    : option (Position * option (Sides bool)) :=
  match anchor, popoutRef with
  | Some anchorRect, Some popoutRect =>
      let position :=
        calculatePosition (asPosition anchorRect) (asDimensions popoutRect) in
      let outOufBoundsSides :=
        match boundary with
        | Some (Some boundaryRect) =>
            Some (checkBoundaryOutOfBounds position (asPosition boundaryRect))
        | _ => None
        end in
      Some (position, outOufBoundsSides)
  | _, _ => None
  end.

End Earlier.

End Geometry.

(* ================================================================== *)
(** * The placement on doubles *)
(* ================================================================== *)

Module Doubles.

Import PrimFloat.
Import Geometry.
Local Open Scope float_scope.

Record Dimensions : Type := mkDimensions {
  height : float;
  width : float
}.

Definition Position : Type := Sides float.

Definition padding : float := 12.

(** [calculatePosition], with the additions and subtractions of binary64. *)
Definition calculatePosition
    (anchor : Position) (dimensions : Dimensions) (direction : Direction)
    : Position :=
  match direction with
  | Bottom =>
      {| bottom := bottom anchor + padding + height dimensions;
         left := left anchor;
         right := left anchor + width dimensions;
         top := bottom anchor + padding |}
  | Left =>
      {| bottom := top anchor + height dimensions;
         left := left anchor - padding - width dimensions;
         right := left anchor - padding;
         top := top anchor |}
  | Right =>
      {| bottom := top anchor + height dimensions;
         left := right anchor + padding;
         right := right anchor + padding + width dimensions;
         top := top anchor |}
  | Top =>
      {| bottom := top anchor - padding;
         left := left anchor;
         right := left anchor + width dimensions;
         top := top anchor - padding - height dimensions |}
  end.


(** The 24 by 24 anchor at (100, 100), and a popout 50.1 wide and 50 high;
    the literal is the double that [50.1] denotes. *)
Definition sampleAnchor : Position :=
  {| bottom := 124; left := 100; right := 124; top := 100 |}.

Definition sampleDims : Dimensions :=
  {| height := 50; width := 0x1.90ccccccccccdp+5 |}.

End Doubles.

(* ================================================================== *)
(** * The batching scheduler *)
(* ================================================================== *)

Module Scheduler.

(** ** Callbacks

    The scheduler stores closures of type [() => void].  What such a closure
    can do to the scheduler is: call [read] or [write] (any number of times,
    with any closure), throw, or return.  A callback is therefore modelled by
    the sequence of these actions that its invocation performs; whatever else
    it does (measuring, styling) does not touch the scheduler.  [name] only
    serves to tell callbacks apart in the log. *)
Inductive callback : Type :=
  | Cb (name : nat) (body : list cmd)
with cmd : Type :=
  | CallRead (cb : callback)      (* read(cb) *)
  | CallWrite (cb : callback)     (* write(cb) *)
  | Throw.                        (* throw ... *)

Definition name (cb : callback) : nat := let 'Cb n _ := cb in n.
Definition body (cb : callback) : list cmd := let 'Cb _ b := cb in b.

(** The two loops of [schedule]: the one over [writes], run by the
    animation-frame callback, and the one over [reads], run by the timeout
    callback. *)
Inductive phase : Type := WritePhase | ReadPhase.

(** Ghost log: [Ran p cb] is appended each time a loop invokes [cb()]. *)
Inductive event : Type := Ran (p : phase) (cb : callback).

(** ** State: the module's variables and the host's pending tasks *)

Record State : Type := mkState {
  (* module-level variables of scheduler.ts *)
  reads : list callback;
  writes : list callback;
  rafId : option positive;
  timeoutId : option positive;
  (* the host (window) *)
  frameRequests : list positive;  (* handles of pending requestAnimationFrame callbacks *)
  timers : list positive;         (* handles of pending setTimeout callbacks *)
  nextHandle : positive;          (* handles are positive, so never falsy *)
  uncaught : nat;                 (* exceptions that reached the host *)
  (* ghost *)
  log : list event
}.

Definition set_reads (v : list callback) (st : State) : State :=
  mkState v (writes st) (rafId st) (timeoutId st) (frameRequests st) (timers st)
          (nextHandle st) (uncaught st) (log st).
Definition set_writes (v : list callback) (st : State) : State :=
  mkState (reads st) v (rafId st) (timeoutId st) (frameRequests st) (timers st)
          (nextHandle st) (uncaught st) (log st).
Definition set_rafId (v : option positive) (st : State) : State :=
  mkState (reads st) (writes st) v (timeoutId st) (frameRequests st) (timers st)
          (nextHandle st) (uncaught st) (log st).
Definition set_timeoutId (v : option positive) (st : State) : State :=
  mkState (reads st) (writes st) (rafId st) v (frameRequests st) (timers st)
          (nextHandle st) (uncaught st) (log st).
Definition set_frameRequests (v : list positive) (st : State) : State :=
  mkState (reads st) (writes st) (rafId st) (timeoutId st) v (timers st)
          (nextHandle st) (uncaught st) (log st).
Definition set_timers (v : list positive) (st : State) : State :=
  mkState (reads st) (writes st) (rafId st) (timeoutId st) (frameRequests st) v
          (nextHandle st) (uncaught st) (log st).
Definition set_nextHandle (v : positive) (st : State) : State :=
  mkState (reads st) (writes st) (rafId st) (timeoutId st) (frameRequests st) (timers st)
          v (uncaught st) (log st).
Definition set_uncaught (v : nat) (st : State) : State :=
  mkState (reads st) (writes st) (rafId st) (timeoutId st) (frameRequests st) (timers st)
          (nextHandle st) v (log st).
Definition set_log (v : list event) (st : State) : State :=
  mkState (reads st) (writes st) (rafId st) (timeoutId st) (frameRequests st) (timers st)
          (nextHandle st) (uncaught st) v.

(** The module as loaded: empty queues, both ids [null], nothing pending. *)
Definition initial : State :=
  mkState [] [] None None [] [] 1%positive 0 [].

Definition queue (p : phase) (st : State) : list callback :=
  match p with
  | WritePhase => writes st
  | ReadPhase => reads st
  end.

Definition set_queue (p : phase) (v : list callback) (st : State) : State :=
  match p with
  | WritePhase => set_writes v st
  | ReadPhase => set_reads v st
  end.

(** ** Computations: state passing with exceptions *)

Inductive completion (A : Type) : Type :=
  | Normal (a : A)
  | Abrupt.                       (* a [throw] is propagating *)
Arguments Normal {A} a.
Arguments Abrupt {A}.

Definition M (A : Type) : Type := State -> completion A * State.

Definition ret {A : Type} (a : A) : M A := fun st => (Normal a, st).

Definition bind {A B : Type} (m : M A) (k : A -> M B) : M B :=
  fun st =>
    match m st with
    | (Normal a, st') => k a st'
    | (Abrupt, st') => (Abrupt, st')
    end.

Definition throw {A : Type} : M A := fun st => (Abrupt, st).

Definition gets {A : Type} (f : State -> A) : M A := fun st => (Normal (f st), st).

Definition modify (f : State -> State) : M unit := fun st => (Normal tt, f st).

Declare Scope sched_scope.
Delimit Scope sched_scope with sched.
Notation "x <- m ;; k" := (bind m (fun x => k))
  (at level 61, m at next level, right associativity) : sched_scope.
Notation "m ;; k" := (bind m (fun _ => k))
  (at level 61, right associativity) : sched_scope.
Local Open Scope sched_scope.

(** ** The host's primitives *)

(** [window.requestAnimationFrame(f)] with [f] the closure built in
    [schedule]: the request is recorded and its handle returned. *)
Definition requestAnimationFrame : M positive :=
  h <- gets nextHandle ;;
  modify (fun st => set_nextHandle (Pos.succ h)
                      (set_frameRequests (frameRequests st ++ [h]) st)) ;;
  ret h.

(** [window.setTimeout(f)] with [f] the closure built in the frame callback. *)
Definition setTimeout : M positive :=
  h <- gets nextHandle ;;
  modify (fun st => set_nextHandle (Pos.succ h) (set_timers (timers st ++ [h]) st)) ;;
  ret h.

(** ** scheduler.ts *)

(** [rafId = rafId || window.requestAnimationFrame(...)] *)
Definition schedule : M unit :=
  id <- gets rafId ;;
  match id with
  | Some h => modify (set_rafId (Some h))
  | None => h <- requestAnimationFrame ;; modify (set_rafId (Some h))
  end.

(** [arr.push(cb)], which returns the new length. *)
Definition push (p : phase) (cb : callback) : M nat :=
  modify (fun st => set_queue p (queue p st ++ [cb]) st) ;;
  gets (fun st => length (queue p st)).

(** [arr.shift()], which returns [undefined] on an empty array. *)
Definition shift (p : phase) : M (option callback) :=
  q <- gets (queue p) ;;
  match q with
  | [] => ret None
  | cb :: rest => modify (set_queue p rest) ;; ret (Some cb)
  end.

Definition read (cb : callback) : M nat := schedule ;; push ReadPhase cb.

Definition write (cb : callback) : M nat := schedule ;; push WritePhase cb.

(** Running the body of a callback. *)
Definition exec_cmd (c : cmd) : M unit :=
  match c with
  | CallRead cb => read cb ;; ret tt
  | CallWrite cb => write cb ;; ret tt
  | Throw => throw
  end.

Fixpoint exec (cmds : list cmd) : M unit :=
  match cmds with
  | [] => ret tt
  | c :: rest => exec_cmd c ;; exec rest
  end.

(** [cb()] inside the loop of phase [p]. *)
Definition call (p : phase) (cb : callback) : M unit :=
  modify (fun st => set_log (log st ++ [Ran p cb]) st) ;;
  exec (body cb).

(** [for (i = arr.length; i > 0; i--) if ((cb = arr.shift())) cb()], entered
    with [i] already set to the length read at the start. *)
Fixpoint drain (p : phase) (i : nat) : M unit :=
  match i with
  | O => ret tt
  | S i' =>
      cb <- shift p ;;
      match cb with
      | Some f => call p f
      | None => ret tt
      end ;;
      drain p i'
  end.

(** The closure passed to [window.setTimeout]. *)
Definition onTimeout : M unit :=
  modify (set_timeoutId None) ;;
  i <- gets (fun st => length (reads st)) ;;
  drain ReadPhase i.

(** The closure passed to [window.requestAnimationFrame]. *)
Definition onAnimationFrame : M unit :=
  modify (set_rafId None) ;;
  i <- gets (fun st => length (writes st)) ;;
  drain WritePhase i ;;
  id <- gets timeoutId ;;
  match id with
  | Some h => modify (set_timeoutId (Some h))
  | None => h <- setTimeout ;; modify (set_timeoutId (Some h))
  end.

(** ** The host's event loop *)

(** The host runs a task; an exception that escapes it is reported and the
    task is over. *)
Definition run_task {A : Type} (task : M A) (st : State) : State :=
  match task st with
  | (Normal _, st') => st'
  | (Abrupt, st') => set_uncaught (S (uncaught st')) st'
  end.

(** The refresh signal: the frame callbacks requested so far are run, each
    as a task of its own; requests made meanwhile wait for the next frame. *)
Definition refresh (st : State) : State :=
  fold_left (fun s _ => run_task onAnimationFrame s)
            (frameRequests st) (set_frameRequests [] st).

(** The timer signal: the oldest pending timer fires. *)
Definition tick (st : State) : State :=
  match timers st with
  | [] => st
  | _ :: rest => run_task onTimeout (set_timers rest st)
  end.

(** One activation: the refresh signal, then the timer signal. *)
Definition activation (st : State) : State := tick (refresh st).

(** A synchronous turn of client code that enqueues the write callbacks [ws]
    and then the read callbacks [rs]. *)
Fixpoint forEach {A : Type} (f : A -> M nat) (l : list A) : M unit :=
  match l with
  | [] => ret tt
  | a :: rest => f a ;; forEach f rest
  end.

Definition enqueueAll (ws rs : list callback) : M unit :=
  forEach write ws ;; forEach read rs.

(** ** What a callback asks of the scheduler *)

(** [returns b]: no [throw] is reached. *)
Fixpoint returns (cmds : list cmd) : bool :=
  match cmds with
  | [] => true
  | Throw :: _ => false
  | _ :: rest => returns rest
  end.

(** The [read]/[write] calls made before the first [throw], in order. *)
Fixpoint requests (cmds : list cmd) : list (phase * callback) :=
  match cmds with
  | [] => []
  | CallRead cb :: rest => (ReadPhase, cb) :: requests rest
  | CallWrite cb :: rest => (WritePhase, cb) :: requests rest
  | Throw :: _ => []
  end.

Definition phase_eqb (p q : phase) : bool :=
  match p, q with
  | WritePhase, WritePhase | ReadPhase, ReadPhase => true
  | _, _ => false
  end.

(** The callbacks among [l] that go to the queue of phase [p]. *)
Definition toQueue (p : phase) (l : list (phase * callback)) : list callback :=
  map snd (filter (fun r => phase_eqb (fst r) p) l).

Definition returnsCb (cb : callback) : bool := returns (body cb).
Definition requestsCb (cb : callback) : list (phase * callback) := requests (body cb).

(** [read(cb)] or [write(cb)], as a state change. *)
Definition enqueue (r : phase * callback) (st : State) : State :=
  snd ((schedule ;; push (fst r) (snd r)) st).

Definition enqueueList (l : list (phase * callback)) (st : State) : State :=
  fold_left (fun s r => enqueue r s) l st.

(** The first [n] entries leave the queue of phase [p]. *)
Definition dequeue (p : phase) (n : nat) (st : State) : State :=
  set_queue p (skipn n (queue p st)) st.

Definition note (evs : list event) (st : State) : State :=
  set_log (log st ++ evs) st.

(** The callbacks that a loop over [l] invokes: those up to and including
    the first one that throws. *)
Fixpoint invoked (l : list callback) : list callback :=
  match l with
  | [] => []
  | cb :: rest => if returnsCb cb then cb :: invoked rest else [cb]
  end.

Definition outcome (ok : bool) : completion unit :=
  if ok then Normal tt else Abrupt.

(** The state a loop of phase [p] leaves, when it starts with its count set
    to the whole queue: the invoked callbacks are logged and gone from the
    queue, and what they requested is enqueued. *)
Definition drained (p : phase) (st : State) : State :=
  let inv := invoked (queue p st) in
  enqueueList (flat_map requestsCb inv)
              (note (map (Ran p) inv) (dequeue p (length inv) st)).

(** [timeoutId = timeoutId || window.setTimeout(...)], as a state change. *)
Definition armed (st : State) : State :=
  match timeoutId st with
  | Some h => set_timeoutId (Some h) st
  | None =>
      set_timeoutId (Some (nextHandle st))
        (set_nextHandle (Pos.succ (nextHandle st))
           (set_timers (timers st ++ [nextHandle st]) st))
  end.

(** The frame request that is pending after a call of [schedule], and the
    host's list of requests then. *)
Definition handleOf (st : State) : positive :=
  match rafId st with
  | Some h => h
  | None => nextHandle st
  end.

Definition frameAfter (st : State) : list positive :=
  match rafId st with
  | Some _ => frameRequests st
  | None => frameRequests st ++ [nextHandle st]
  end.

(** An exception reached the host. *)
Definition reported (st : State) : State := set_uncaught (S (uncaught st)) st.

(** ** Consistency of the ids with the host's pending tasks *)

Definition pendingIs (id : option positive) (pending : list positive) : Prop :=
  match id with
  | Some h => pending = [h]
  | None => pending = []
  end.

Definition consistent (st : State) : Prop :=
  pendingIs (rafId st) (frameRequests st) /\ pendingIs (timeoutId st) (timers st).

(** ** Isolation of failures, as a property *)

(** The events logged between [st] and a later state [st']. *)
Definition ranDuring (st st' : State) : list event :=
  skipn (length (log st)) (log st').

(** "If one queued callback fails when invoked, every other callback queued
    in that same phase still runs." *)
Definition failureIsolated : Prop :=
  forall (p : phase) (st : State) (bad : callback),
    In bad (queue p st) ->
    returnsCb bad = false ->
    forall cb : callback,
      In cb (queue p st) ->
      In (Ran p cb) (ranDuring st (snd (drain p (length (queue p st)) st))).

(** ** Sample callbacks *)

(** The callbacks of [positionPopout] when a boundary is attached: the read
    callback measures and then calls [write] twice, first with the callback
    that colours the boundary, then with the one that moves the popout. *)
Definition colourBoundary : callback := Cb 1 [].
Definition movePopout : callback := Cb 2 [].
Definition measure : callback :=
  Cb 0 [CallWrite colourBoundary; CallWrite movePopout].

(** A callback that throws, and one that does nothing to the scheduler. *)
Definition faulty : callback := Cb 3 [Throw].
Definition plain : callback := Cb 4 [].

(** ** Runs of the scheduler *)

(** Nothing queued and nothing pending. *)
Definition idle (st : State) : Prop :=
  reads st = [] /\ writes st = [] /\ rafId st = None /\ timeoutId st = None
  /\ frameRequests st = [] /\ timers st = [].

(** What can happen to the scheduler: client code calls [read] or [write],
    or the host sends one of its two signals. *)
Inductive action : Type :=
  | DoRead (cb : callback)
  | DoWrite (cb : callback)
  | Refresh
  | Tick.

Definition perform (a : action) (st : State) : State :=
  match a with
  | DoRead cb => run_task (read cb) st
  | DoWrite cb => run_task (write cb) st
  | Refresh => refresh st
  | Tick => tick st
  end.

Definition runActions (l : list action) (st : State) : State :=
  fold_left (fun s a => perform a s) l st.

(** [n] activations in a row. *)
Definition activations (n : nat) (st : State) : State :=
  Nat.iter n activation st.

(** How deep the requests of a callback nest: 0 for a callback that calls
    neither [read] nor [write]. *)
Fixpoint depth (cb : callback) : nat :=
  match cb with
  | Cb _ cmds =>
      list_max
        (map (fun c =>
                match c with
                | CallRead x | CallWrite x => S (depth x)
                | Throw => 0
                end) cmds)
  end.

(** Neither the callback nor any callback it requests, and so on, throws. *)
Fixpoint wellBehaved (cb : callback) : bool :=
  match cb with
  | Cb _ cmds =>
      forallb (fun c =>
                 match c with
                 | CallRead x | CallWrite x => wellBehaved x
                 | Throw => false
                 end) cmds
  end.

(** Every callback of [l] is well behaved and nests less than [n] deep. *)
Definition tame (n : nat) (l : list callback) : Prop :=
  forall cb, In cb l -> wellBehaved cb = true /\ depth cb < n.

(** A state between two activations in which nothing is stranded: no timer
    is pending, and a frame is pending unless both queues are empty. *)
Definition settled (st : State) : Prop :=
  consistent st
  /\ timeoutId st = None
  /\ (rafId st = None -> reads st = [] /\ writes st = []).

(** ** Two statements about activations, as properties *)

(** A write callback that calls [read], and a read callback that calls
    [write] twice, first with a callback that throws. *)
Definition writeThatReads : callback := Cb 5 [CallRead plain].

(** "Enqueuing k write callbacks then m read callbacks in a single
    synchronous turn causes, after one full activation, exactly those k write
    callbacks and m read callbacks to have run, the writes before the reads,
    each group in insertion order", for a freshly loaded module. *)
Definition batchRunsExactly : Prop :=
  forall ws rs : list callback,
    log (activation (run_task (enqueueAll ws rs) initial)) =
    map (Ran WritePhase) ws ++ map (Ran ReadPhase) rs.


End Scheduler.

(* ================================================================== *)
(** * The write callback that colours the boundary *)
(* ================================================================== *)

Module Styling.

Import Ascii String.
Import Geometry.
Local Open Scope string_scope.

(** Strings are sequences of 8-bit characters here, and the case
    conversions act on the ASCII letters, which is what
    [toUpperCase]/[toLowerCase] do on ASCII strings such as the four keys. *)
Definition upperChar (c : ascii) : ascii :=
  if (Ascii.leb "a" c && Ascii.leb c "z")%bool
  then ascii_of_nat (nat_of_ascii c - 32)
  else c.

Definition lowerChar (c : ascii) : ascii :=
  if (Ascii.leb "A" c && Ascii.leb c "Z")%bool
  then ascii_of_nat (nat_of_ascii c + 32)
  else c.

Fixpoint mapString (f : ascii -> ascii) (s : string) : string :=
  match s with
  | EmptyString => EmptyString
  | String c rest => String (f c) (mapString f rest)
  end.

Definition toUpperCase (s : string) : string := mapString upperChar s.
Definition toLowerCase (s : string) : string := mapString lowerChar s.

(** [s[0]] as an operand of [+]: the first character, or [undefined]
    turned into a string. *)
Definition charAt0 (s : string) : string :=
  match s with
  | EmptyString => "undefined"
  | String c _ => String c EmptyString
  end.

(** [s.substr(1)] *)
Definition substr1 (s : string) : string :=
  match s with
  | EmptyString => EmptyString
  | String _ rest => rest
  end.

(** [`border${side.toUpperCase()[0] + side.toLowerCase().substr(1)}Color`] *)
Definition borderColorKey (side : string) : string :=
  "border" ++ (charAt0 (toUpperCase side) ++ substr1 (toLowerCase side)) ++ "Color".

(** The key of a direction, as [Object.keys] yields it. *)
Definition keyName (d : Direction) : string :=
  match d with
  | Bottom => "bottom"
  | Left => "left"
  | Right => "right"
  | Top => "top"
  end.

(** [boundaryEl.style]: the properties assigned so far, the latest first. *)
Definition Style : Type := list (string * string).

Definition assign (key value : string) (style : Style) : Style :=
  (key, value) :: style.

Fixpoint lookup (key : string) (style : Style) : option string :=
  match style with
  | [] => None
  | (k, v) :: rest => if String.eqb key k then Some v else lookup key rest
  end.

(** The body of the first [write] callback:
    [Object.keys(outOufBoundsSides).forEach(key => ...)]. *)
Definition paintBoundary (outOufBoundsSides : Sides bool) (style : Style) : Style :=
  fold_left
    (fun st side =>
       let borderColorKey := borderColorKey (keyName side) in
       assign borderColorKey
              (if get outOufBoundsSides side then "orange" else "green") st)
    keys style.

(** The CSS property that holds the colour of the border on a side. *)
Definition cssBorderColor (d : Direction) : string :=
  match d with
  | Bottom => "borderBottomColor"
  | Left => "borderLeftColor"
  | Right => "borderRightColor"
  | Top => "borderTopColor"
  end.

End Styling.

(* ================================================================== *)
(** * The positioning cycle of the component *)
(* ================================================================== *)

Module Component.

Import Scheduler.

(** The callback that colours the boundary assigns to
    [boundaryEl.style[...]], where [boundaryEl] is [boundary.current] cast to
    [HTMLDivElement]; the props only promise a [Measurable].  For a boundary
    that has a [style] object the callback does its assignments and returns;
    for one that has none the first assignment throws. *)
Definition colourBoundaryOf (boundaryStyled : bool) : callback :=
  if boundaryStyled then colourBoundary else Cb 1 [Throw].

(** The callback that [positionPopout] hands to [read], for the
    measurements it finds when it runs: it returns early without the anchor
    or the popout element; with a boundary attached it calls [write] for the
    callback that colours the boundary; and it calls [write] for the callback
    that moves the popout. *)
Definition readCallback
    (props : Geometry.PopoutProps) (popoutRef : Geometry.RefObject Geometry.Measurable)
    (boundaryStyled : bool)
    : callback :=
  Cb 0
     match Geometry.positionPopout props popoutRef with
     | None => []
     | Some pl =>
         match Geometry.outOufBoundsSides pl with
         | Some _ => [CallWrite (colourBoundaryOf boundaryStyled); CallWrite movePopout]
         | None => [CallWrite movePopout]
         end
     end.

(** [positionPopout()]: [read(() => { ... })]. *)
Definition positionPopout
    (props : Geometry.PopoutProps) (popoutRef : Geometry.RefObject Geometry.Measurable)
    (boundaryStyled : bool)
    : M nat :=
  read (readCallback props popoutRef boundaryStyled).

(** The write callbacks that a positioning cycle brings about. *)
Definition cycleWrites
    (props : Geometry.PopoutProps) (popoutRef : Geometry.RefObject Geometry.Measurable)
    (boundaryStyled : bool)
    : list callback :=
  toQueue WritePhase (requestsCb (readCallback props popoutRef boundaryStyled)).

End Component.

(* ================================================================== *)
(** * Properties of the geometry *)
(* ================================================================== *)

Module GeometryFacts.

Import Geometry.
Local Open Scope Z_scope.

Lemma lt_true (a b : Z) : lt a b = true <-> a < b.
Proof. unfold lt. apply Z.ltb_lt. Qed.

Lemma gt_true (a b : Z) : gt a b = true <-> a > b.
Proof. unfold gt. rewrite Z.ltb_lt. lia. Qed.

Lemma opposite_involutive (d : Direction) :
  oppositeDirection (oppositeDirection d) = d.
Proof. destruct d; reflexivity. Qed.

(** C4: for each of the four directions [calculatePosition] returns the
    rectangle of the formulas, with the padding 12; being a function on the
    four-valued type [Direction], it is total. *)
Theorem calculatePosition_formulas (anchor : Position) (dims : Dimensions) :
  calculatePosition anchor dims Right =
    {| top := top anchor;
       bottom := top anchor + height dims;
       left := right anchor + 12;
       right := right anchor + 12 + width dims |}
  /\ calculatePosition anchor dims Left =
    {| top := top anchor;
       bottom := top anchor + height dims;
       right := left anchor - 12;
       left := left anchor - 12 - width dims |}
  /\ calculatePosition anchor dims Bottom =
    {| left := left anchor;
       right := left anchor + width dims;
       top := bottom anchor + 12;
       bottom := bottom anchor + 12 + height dims |}
  /\ calculatePosition anchor dims Top =
    {| left := left anchor;
       right := left anchor + width dims;
       bottom := top anchor - 12;
       top := top anchor - 12 - height dims |}
  /\ (forall d : Direction, exists r : Position, calculatePosition anchor dims d = r).
Proof.
  repeat split.
  intros d. eexists. reflexivity.
Qed.

(** C5: [checkBoundaryOutOfBounds] decides each side by its own two
    comparisons, and [isContained] holds exactly when no side overflows. *)
Theorem checkBoundaryOutOfBounds_sides (rect boundary : Position) :
  let st := checkBoundaryOutOfBounds rect boundary in
  (top st = true <-> top rect < top boundary \/ bottom rect < top boundary)
  /\ (bottom st = true <-> bottom rect > bottom boundary \/ top rect > bottom boundary)
  /\ (left st = true <-> left rect < left boundary \/ right rect < left boundary)
  /\ (right st = true <-> left rect > right boundary \/ right rect > right boundary)
  /\ (forall r b : ClientRect,
        isContained r b = true <->
        forall d : Direction,
          get (checkBoundaryOutOfBounds (asPosition r) (asPosition b)) d = false).
Proof.
  cbn zeta. split; [ | split; [ | split; [ | split ] ] ].
  1-4: unfold checkBoundaryOutOfBounds; cbn [top bottom left right];
       rewrite orb_true_iff, ?lt_true, ?gt_true; tauto.
  intros r b. unfold isContained, keys. cbn [existsb]. split.
  - intros H d.
    rewrite negb_true_iff, orb_false_r, !orb_false_iff in H.
    destruct H as (Hb & Hl & Hr & Ht). destruct d; assumption.
  - intros H.
    rewrite (H Bottom), (H Left), (H Right), (H Top). reflexivity.
Qed.

(** C9: a rectangle (one with [top <= bottom] and [left <= right]) overflows
    itself on no side. *)
Theorem checkBoundaryOutOfBounds_self (rect : Position) :
  wellFormed rect ->
  checkBoundaryOutOfBounds rect rect =
    {| bottom := false; left := false; right := false; top := false |}.
Proof.
  intros [Hv Hh]. unfold checkBoundaryOutOfBounds, lt, gt.
  rewrite !Z.ltb_irrefl. cbn [orb].
  assert (Hb : (bottom rect <? top rect) = false) by (apply Z.ltb_ge; exact Hv).
  assert (Hr : (right rect <? left rect) = false) by (apply Z.ltb_ge; exact Hh).
  rewrite Hb, Hr. reflexivity.
Qed.

Lemma checkBoundaryOutOfBounds_self_witness :
  wellFormed {| bottom := 124; left := 100; right := 124; top := 100 |}
  /\ checkBoundaryOutOfBounds
       {| bottom := 124; left := 100; right := 124; top := 100 |}
       {| bottom := 124; left := 100; right := 124; top := 100 |} =
     {| bottom := false; left := false; right := false; top := false |}.
Proof.
  split.
  - unfold wellFormed. cbn. lia.
  - apply checkBoundaryOutOfBounds_self. unfold wellFormed. cbn. lia.
Defined.

(** The invariant matters: an upside-down "rectangle" overflows itself. *)
Lemma checkBoundaryOutOfBounds_self_inverted :
  checkBoundaryOutOfBounds
    {| bottom := 0; left := 0; right := 10; top := 10 |}
    {| bottom := 0; left := 0; right := 10; top := 10 |} =
  {| bottom := true; left := false; right := false; top := true |}.
Proof. reflexivity. Qed.

(** ** The flip decision of [positionPopout] *)

Section Flip.

Variable props : PopoutProps.
Variables a p : Measurable.
Hypothesis Hanchor : anchor props = Some a.

Let d : Direction := withDefault Right (direction props).

(** C8: without a boundary, or with [flip] off, or when the primary
    rectangle does not overflow on its own side, the result is the primary
    rectangle, not flipped. *)
Theorem positionPopout_unflipped :
  (suppliedBoundary props = None
   \/ withDefault false (flip props) = false
   \/ exists b, suppliedBoundary props = Some b
        /\ get (checkBoundaryOutOfBounds (primaryPlacement a p d) (asPosition b)) d = false) ->
  exists sides,
    positionPopout props (Some p) =
    Some {| position := primaryPlacement a p d; flipped := false;
            outOufBoundsSides := sides |}.
Proof.
  unfold positionPopout. rewrite Hanchor. fold d.
  fold (primaryPlacement a p d).
  intros [Hb | [Hf | (b & Hb & Hfit)]].
  - rewrite Hb. eexists. reflexivity.
  - rewrite Hf. cbn [andb]. destruct (suppliedBoundary props); eexists; reflexivity.
  - rewrite Hb, Hfit, andb_false_r. eexists. reflexivity.
Qed.

Variable b : Measurable.
Hypothesis Hboundary : suppliedBoundary props = Some b.
Hypothesis Hflip : withDefault false (flip props) = true.
Hypothesis Hover :
  get (checkBoundaryOutOfBounds (primaryPlacement a p d) (asPosition b)) d = true.

(** C7: when the primary rectangle overflows on its own side and the
    opposite rectangle does not overflow on the opposite side, the result is
    the opposite rectangle, flagged as flipped. *)
Theorem positionPopout_flips :
  get (checkBoundaryOutOfBounds (flippedPlacement a p d) (asPosition b))
      (oppositeDirection d) = false ->
  positionPopout props (Some p) =
  Some {| position := flippedPlacement a p d; flipped := true;
          outOufBoundsSides :=
            Some (checkBoundaryOutOfBounds (primaryPlacement a p d) (asPosition b)) |}.
Proof.
  intros Hfit. unfold positionPopout. rewrite Hanchor, Hboundary, Hflip. fold d.
  fold (primaryPlacement a p d). fold (flippedPlacement a p d).
  rewrite Hover, Hfit. reflexivity.
Qed.

(** C3: when the opposite rectangle overflows too, [original] keeps the
    primary rectangle, [scrollable] takes the opposite rectangle for
    [bottom] and [right] and keeps the primary one for [top] and [left]; the
    flag is [true] in every case. *)
Theorem positionPopout_flip_fails :
  get (checkBoundaryOutOfBounds (flippedPlacement a p d) (asPosition b))
      (oppositeDirection d) = true ->
  exists pl,
    positionPopout props (Some p) = Some pl
    /\ flipped pl = true
    /\ (withDefault original (flipFailureRecovery props) = original ->
        position pl = primaryPlacement a p d)
    /\ (withDefault original (flipFailureRecovery props) = scrollable ->
        (oppositeDirection d = Bottom \/ oppositeDirection d = Right ->
         position pl = flippedPlacement a p d)
        /\ (oppositeDirection d = Top \/ oppositeDirection d = Left ->
            position pl = primaryPlacement a p d)).
Proof.
  intros Hfail. unfold positionPopout. rewrite Hanchor, Hboundary, Hflip. fold d.
  fold (primaryPlacement a p d). fold (flippedPlacement a p d).
  rewrite Hover, Hfail. cbn [andb]. eexists. split; [reflexivity | ].
  cbn [flipped position]. split; [reflexivity | ].
  destruct (withDefault original (flipFailureRecovery props)).
  - split; [reflexivity | discriminate].
  - split; [discriminate | ]. intros _.
    destruct (oppositeDirection d); split; intros [H | H];
      try discriminate; reflexivity.
Qed.

End Flip.

(** The worked examples.  Towards [right] inside the wide boundary the
    popout fits: no flip. *)
Lemma positionPopout_unflipped_witness :
  exists sides,
    positionPopout (sampleProps (Some wideBoundary) Right true original)
                   (Some samplePopout) =
    Some {| position := {| bottom := 150; left := 136; right := 186; top := 100 |};
            flipped := false; outOufBoundsSides := sides |}.
Proof.
  apply (positionPopout_unflipped
           (sampleProps (Some wideBoundary) Right true original)
           sampleAnchor samplePopout eq_refl).
  right. right. exists wideBoundary. split; reflexivity.
Defined.

(** Inside the narrow boundary (right edge at 150) it flips to the left. *)
Lemma positionPopout_flips_witness :
  positionPopout (sampleProps (Some narrowBoundary) Right true original)
                 (Some samplePopout) =
  Some {| position := {| bottom := 150; left := 38; right := 88; top := 100 |};
          flipped := true;
          outOufBoundsSides :=
            Some {| bottom := false; left := false; right := true; top := false |} |}.
Proof.
  exact (positionPopout_flips
           (sampleProps (Some narrowBoundary) Right true original)
           sampleAnchor samplePopout eq_refl narrowBoundary
           eq_refl eq_refl eq_refl eq_refl).
Defined.

(** Inside the tight boundary both [top] and [bottom] overflow; with
    [scrollable] the popout goes to the bottom all the same. *)
Lemma positionPopout_flip_fails_witness :
  exists pl,
    positionPopout (sampleProps (Some tightBoundary) Top true scrollable)
                   (Some samplePopout) = Some pl
    /\ flipped pl = true
    /\ (scrollable = original ->
        position pl = {| bottom := 88; left := 100; right := 150; top := 38 |})
    /\ (scrollable = scrollable ->
        (Bottom = Bottom \/ Bottom = Right ->
         position pl = {| bottom := 186; left := 100; right := 150; top := 136 |})
        /\ (Bottom = Top \/ Bottom = Left ->
            position pl = {| bottom := 88; left := 100; right := 150; top := 38 |})).
Proof.
  exact (positionPopout_flip_fails
           (sampleProps (Some tightBoundary) Top true scrollable)
           sampleAnchor samplePopout eq_refl tightBoundary
           eq_refl eq_refl eq_refl eq_refl).
Defined.

(** The same overflow with [original]: the primary rectangle is kept and
    the flag is [true] nevertheless. *)
Example positionPopout_original_example :
  positionPopout (sampleProps (Some tightBoundary) Top true original)
                 (Some samplePopout) =
  Some {| position := {| bottom := 88; left := 100; right := 150; top := 38 |};
          flipped := true;
          outOufBoundsSides :=
            Some {| bottom := false; left := false; right := true; top := true |} |}.
Proof. reflexivity. Qed.

(** A missing anchor or popout element: the callback returns early. *)
Lemma positionPopout_missing (props : PopoutProps) (popoutRef : RefObject Measurable) :
  anchor props = None \/ popoutRef = None ->
  positionPopout props popoutRef = None.
Proof.
  unfold positionPopout. intros [H | H]; rewrite H; [ | destruct (anchor props) ]; reflexivity.
Qed.

End GeometryFacts.

(* ================================================================== *)
(** * Properties of the scheduler *)
(* ================================================================== *)

Module SchedulerFacts.

Import Scheduler.
Local Open Scope sched_scope.

(** ** Projections of the state changes *)

Ltac unfold_m :=
  unfold read, write, schedule, push, shift, requestAnimationFrame, setTimeout,
         bind, gets, modify, ret, throw in *.

Lemma set_queue_same (p : phase) (st : State) : set_queue p (queue p st) st = st.
Proof. destruct st, p; reflexivity. Qed.

Lemma queue_set_queue (p : phase) (v : list callback) (st : State) :
  queue p (set_queue p v st) = v.
Proof. destruct p; reflexivity. Qed.

Lemma note_nil (st : State) : note [] st = st.
Proof. unfold note. destruct st; cbn. rewrite app_nil_r. reflexivity. Qed.

Lemma note_note (e1 e2 : list event) (st : State) :
  note e2 (note e1 st) = note (e1 ++ e2) st.
Proof. unfold note. destruct st; cbn. rewrite app_assoc. reflexivity. Qed.

Lemma dequeue_zero (p : phase) (st : State) : dequeue p 0 st = st.
Proof. unfold dequeue. cbn [skipn]. apply set_queue_same. Qed.

Lemma dequeue_dequeue (p : phase) (m n : nat) (st : State) :
  dequeue p n (dequeue p m st) = dequeue p (m + n) st.
Proof.
  unfold dequeue. rewrite queue_set_queue, skipn_skipn, (Nat.add_comm n m).
  destruct st, p; reflexivity.
Qed.

Lemma dequeue_note (p : phase) (n : nat) (evs : list event) (st : State) :
  dequeue p n (note evs st) = note evs (dequeue p n st).
Proof. destruct st, p; reflexivity. Qed.

Lemma queue_note (p : phase) (evs : list event) (st : State) :
  queue p (note evs st) = queue p st.
Proof. destruct p; reflexivity. Qed.

Lemma queue_dequeue (p : phase) (n : nat) (st : State) :
  queue p (dequeue p n st) = skipn n (queue p st).
Proof. unfold dequeue. apply queue_set_queue. Qed.

Lemma toQueue_app (p : phase) (l1 l2 : list (phase * callback)) :
  toQueue p (l1 ++ l2) = toQueue p l1 ++ toQueue p l2.
Proof. unfold toQueue. rewrite filter_app, map_app. reflexivity. Qed.

(** ** [read] and [write] *)

Lemma enqueue_queue (r : phase * callback) (p : phase) (st : State) :
  queue p (enqueue r st) = queue p st ++ toQueue p [r].
Proof.
  destruct r as [q cb]. unfold enqueue, toQueue.
  destruct st as [rs ws [h|] tid fr tm nh un lg]; destruct p, q; cbn;
    rewrite ?app_nil_r; reflexivity.
Qed.

Lemma enqueue_log (r : phase * callback) (st : State) :
  log (enqueue r st) = log st.
Proof.
  destruct r as [q cb]. unfold enqueue.
  destruct st as [rs ws [h|] tid fr tm nh un lg]; destruct q; reflexivity.
Qed.

Lemma note_enqueue (evs : list event) (r : phase * callback) (st : State) :
  note evs (enqueue r st) = enqueue r (note evs st).
Proof.
  destruct r as [q cb]. unfold enqueue.
  destruct st as [rs ws [h|] tid fr tm nh un lg]; destruct q; reflexivity.
Qed.

Lemma skipn_snoc {A : Type} (n : nat) (l : list A) (a : A) :
  n <= length l -> skipn n (l ++ [a]) = skipn n l ++ [a].
Proof.
  intros H. rewrite skipn_app.
  replace (n - length l) with 0 by lia. reflexivity.
Qed.

Lemma dequeue_enqueue (p : phase) (n : nat) (r : phase * callback) (st : State) :
  n <= length (queue p st) ->
  dequeue p n (enqueue r st) = enqueue r (dequeue p n st).
Proof.
  destruct r as [q cb]. unfold enqueue, dequeue.
  destruct st as [rs ws [h|] tid fr tm nh un lg]; destruct p, q; cbn; intros H;
    rewrite ?skipn_snoc by exact H; reflexivity.
Qed.

Lemma read_spec (cb : callback) (st : State) :
  read cb st = (Normal (S (length (reads st))), enqueue (ReadPhase, cb) st).
Proof.
  unfold enqueue.
  destruct st as [rs ws [h|] tid fr tm nh un lg]; unfold_m; cbn;
    rewrite length_app, Nat.add_1_r; reflexivity.
Qed.

Lemma write_spec (cb : callback) (st : State) :
  write cb st = (Normal (S (length (writes st))), enqueue (WritePhase, cb) st).
Proof.
  unfold enqueue.
  destruct st as [rs ws [h|] tid fr tm nh un lg]; unfold_m; cbn;
    rewrite length_app, Nat.add_1_r; reflexivity.
Qed.

(** ** Lists of requests *)

Lemma enqueueList_app (l1 l2 : list (phase * callback)) (st : State) :
  enqueueList (l1 ++ l2) st = enqueueList l2 (enqueueList l1 st).
Proof. unfold enqueueList. apply fold_left_app. Qed.

Lemma enqueueList_queue (l : list (phase * callback)) (p : phase) (st : State) :
  queue p (enqueueList l st) = queue p st ++ toQueue p l.
Proof.
  revert st. induction l as [|r l IH]; intros st.
  - cbn. rewrite app_nil_r. reflexivity.
  - cbn [enqueueList fold_left]. fold (enqueueList l (enqueue r st)).
    rewrite IH, enqueue_queue, <- app_assoc, <- toQueue_app. reflexivity.
Qed.

Lemma enqueueList_log (l : list (phase * callback)) (st : State) :
  log (enqueueList l st) = log st.
Proof.
  revert st. induction l as [|r l IH]; intros st; [reflexivity|].
  cbn [enqueueList fold_left]. fold (enqueueList l (enqueue r st)).
  rewrite IH. apply enqueue_log.
Qed.

Lemma note_enqueueList (evs : list event) (l : list (phase * callback)) (st : State) :
  note evs (enqueueList l st) = enqueueList l (note evs st).
Proof.
  revert st. induction l as [|r l IH]; intros st; [reflexivity|].
  cbn [enqueueList fold_left]. fold (enqueueList l (enqueue r st)).
  fold (enqueueList l (enqueue r (note evs st))).
  rewrite IH, note_enqueue. reflexivity.
Qed.

Lemma dequeue_enqueueList (p : phase) (n : nat) (l : list (phase * callback)) (st : State) :
  n <= length (queue p st) ->
  dequeue p n (enqueueList l st) = enqueueList l (dequeue p n st).
Proof.
  revert st. induction l as [|r l IH]; intros st H; [reflexivity|].
  cbn [enqueueList fold_left]. fold (enqueueList l (enqueue r st)).
  fold (enqueueList l (enqueue r (dequeue p n st))).
  rewrite IH, dequeue_enqueue by (rewrite ?enqueue_queue, ?length_app; lia).
  reflexivity.
Qed.

(** ** Invoking a callback *)

Lemma exec_spec (cmds : list cmd) (st : State) :
  exec cmds st = (outcome (returns cmds), enqueueList (requests cmds) st).
Proof.
  revert st. induction cmds as [|c cmds IH]; intros st; [reflexivity|].
  cbn [exec]. unfold bind at 1.
  destruct c as [cb|cb|]; cbn [exec_cmd returns requests].
  - unfold bind at 1. rewrite read_spec. cbn [ret]. rewrite IH. reflexivity.
  - unfold bind at 1. rewrite write_spec. cbn [ret]. rewrite IH. reflexivity.
  - reflexivity.
Qed.

Lemma call_spec (p : phase) (cb : callback) (st : State) :
  call p cb st =
  (outcome (returnsCb cb), enqueueList (requestsCb cb) (note [Ran p cb] st)).
Proof.
  unfold call, bind, modify. rewrite exec_spec. reflexivity.
Qed.

Lemma shift_spec (p : phase) (st : State) :
  shift p st = (Normal (hd_error (queue p st)), dequeue p 1 st).
Proof.
  unfold shift, bind, gets, dequeue.
  destruct (queue p st) as [|cb rest] eqn:E.
  - cbn. rewrite <- E, set_queue_same. reflexivity.
  - reflexivity.
Qed.

(** ** The loop *)

Lemma firstn_app_le {A : Type} (n : nat) (l1 l2 : list A) :
  n <= length l1 -> firstn n (l1 ++ l2) = firstn n l1.
Proof.
  intros H. rewrite firstn_app.
  replace (n - length l1) with 0 by lia. cbn. apply app_nil_r.
Qed.

(** The loop of phase [p], entered with a count [i] that does not exceed the
    queue: it invokes the first [i] callbacks in order, up to and including
    the first one that throws; the invoked ones have left the queue, their
    requests have been appended, and the exception, if any, propagates. *)
Lemma drain_spec (p : phase) (i : nat) (st : State) :
  i <= length (queue p st) ->
  let inv := invoked (firstn i (queue p st)) in
  drain p i st =
  (outcome (forallb returnsCb (firstn i (queue p st))),
   enqueueList (flat_map requestsCb inv)
               (note (map (Ran p) inv) (dequeue p (length inv) st))).
Proof.
  revert st. induction i as [|i IH]; intros st Hle; cbn zeta.
  - cbn. rewrite dequeue_zero, note_nil. reflexivity.
  - destruct (queue p st) as [|cb q] eqn:Eq; [cbn in Hle; lia|].
    cbn [length] in Hle. apply le_S_n in Hle.
    cbn [drain]. unfold bind at 1. rewrite shift_spec, Eq. cbn [hd_error].
    unfold bind at 1. rewrite call_spec.
    cbn [firstn forallb invoked].
    destruct (returnsCb cb) eqn:Eret; cbn [outcome andb].
    + set (st1 := enqueueList (requestsCb cb) (note [Ran p cb] (dequeue p 1 st))).
      assert (Hq1 : queue p st1 = q ++ toQueue p (requestsCb cb)).
      { unfold st1. rewrite enqueueList_queue, queue_note, queue_dequeue, Eq.
        reflexivity. }
      specialize (IH st1). cbn zeta in IH.
      rewrite Hq1, firstn_app_le in IH by exact Hle.
      rewrite IH by (rewrite length_app; lia). f_equal.
      unfold st1.
      assert (Hlen : length (invoked (firstn i q)) <= length q).
      { clear. revert q. induction i as [|i IHi]; intros [|c q]; cbn; try lia.
        destruct (returnsCb c); cbn; [specialize (IHi q)|]; lia. }
      rewrite dequeue_enqueueList
        by (rewrite queue_note, queue_dequeue, Eq; cbn [skipn]; exact Hlen).
      rewrite dequeue_note, dequeue_dequeue.
      rewrite note_enqueueList, note_note.
      cbn [flat_map map length app Nat.add].
      rewrite enqueueList_app. reflexivity.
    + cbn [flat_map map length]. rewrite app_nil_r. reflexivity.
Qed.

Lemma invoked_all (l : list callback) :
  forallb returnsCb l = true -> invoked l = l.
Proof.
  induction l as [|cb l IH]; cbn; [reflexivity|].
  destruct (returnsCb cb); cbn; [|discriminate].
  intros H. rewrite IH by exact H. reflexivity.
Qed.

(** Up to the first callback that throws. *)
Lemma invoked_throw (pre post : list callback) (bad : callback) :
  forallb returnsCb pre = true -> returnsCb bad = false ->
  invoked (pre ++ bad :: post) = pre ++ [bad].
Proof.
  intros Hpre Hbad. induction pre as [|cb pre IH]; cbn in *.
  - rewrite Hbad. reflexivity.
  - destruct (returnsCb cb); cbn in *; [|discriminate].
    rewrite IH by exact Hpre. reflexivity.
Qed.

Lemma forallb_throw (pre post : list callback) (bad : callback) :
  returnsCb bad = false -> forallb returnsCb (pre ++ bad :: post) = false.
Proof.
  intros Hbad. rewrite forallb_app. cbn. rewrite Hbad.
  cbn. apply andb_false_r.
Qed.

Lemma drain_all (p : phase) (st : State) :
  drain p (length (queue p st)) st =
  (outcome (forallb returnsCb (queue p st)), drained p st).
Proof.
  rewrite drain_spec by apply le_n. rewrite firstn_all. reflexivity.
Qed.

(** ** The two closures and the host's signals *)

Lemma onTimeout_spec (st : State) :
  onTimeout st =
  (outcome (forallb returnsCb (reads st)),
   drained ReadPhase (set_timeoutId None st)).
Proof.
  unfold onTimeout, bind, modify, gets.
  change (length (reads (set_timeoutId None st)))
    with (length (queue ReadPhase (set_timeoutId None st))).
  rewrite drain_all. cbn [queue set_timeoutId reads].
  destruct (forallb returnsCb (reads st)); reflexivity.
Qed.

Lemma onAnimationFrame_spec (st : State) :
  onAnimationFrame st =
  if forallb returnsCb (writes st)
  then (Normal tt, armed (drained WritePhase (set_rafId None st)))
  else (Abrupt, drained WritePhase (set_rafId None st)).
Proof.
  unfold onAnimationFrame. unfold bind at 1. unfold modify at 1.
  unfold bind at 1. unfold gets at 1. unfold bind at 1.
  change (length (writes (set_rafId None st)))
    with (length (queue WritePhase (set_rafId None st))).
  rewrite drain_all. cbn [queue set_rafId writes].
  destruct (forallb returnsCb (writes st)); cbn [outcome]; [|reflexivity].
  unfold armed, bind, gets, modify, setTimeout, ret.
  destruct (timeoutId (drained WritePhase (set_rafId None st))); reflexivity.
Qed.

Lemma tick_spec (st : State) (t : positive) (rest : list positive) :
  timers st = t :: rest ->
  tick st =
  let st' := drained ReadPhase (set_timeoutId None (set_timers rest st)) in
  if forallb returnsCb (reads st) then st' else reported st'.
Proof.
  intros Ht. unfold tick, run_task. rewrite Ht, onTimeout_spec.
  cbn [set_timers reads]. destruct (forallb returnsCb (reads st)); reflexivity.
Qed.

Lemma refresh_spec (st : State) (h : positive) :
  frameRequests st = [h] ->
  refresh st =
  let st' := drained WritePhase (set_rafId None (set_frameRequests [] st)) in
  if forallb returnsCb (writes st) then armed st' else reported st'.
Proof.
  intros Hf. unfold refresh, run_task. rewrite Hf. cbn [fold_left].
  rewrite onAnimationFrame_spec. cbn [set_frameRequests writes].
  destruct (forallb returnsCb (writes st)); reflexivity.
Qed.

Lemma refresh_idle (st : State) : frameRequests st = [] -> refresh st = st.
Proof.
  intros Hf. unfold refresh. rewrite Hf. cbn. rewrite <- Hf.
  destruct st; reflexivity.
Qed.

Lemma tick_idle (st : State) : timers st = [] -> tick st = st.
Proof. intros Ht. unfold tick. rewrite Ht. reflexivity. Qed.

(** ** What the loops leave behind *)

Lemma drained_log (p : phase) (st : State) :
  log (drained p st) = log st ++ map (Ran p) (invoked (queue p st)).
Proof.
  unfold drained. rewrite enqueueList_log. destruct st, p; reflexivity.
Qed.

Lemma drained_queue (p : phase) (st : State) :
  queue p (drained p st) =
  skipn (length (invoked (queue p st))) (queue p st)
  ++ toQueue p (flat_map requestsCb (invoked (queue p st))).
Proof.
  unfold drained. rewrite enqueueList_queue, queue_note, queue_dequeue. reflexivity.
Qed.

Lemma drained_reads_of_writes (st : State) :
  reads (drained WritePhase st) =
  reads st ++ toQueue ReadPhase (flat_map requestsCb (invoked (writes st))).
Proof.
  unfold drained. change reads with (queue ReadPhase).
  rewrite enqueueList_queue. destruct st; reflexivity.
Qed.

Lemma drained_writes_of_reads (st : State) :
  writes (drained ReadPhase st) =
  writes st ++ toQueue WritePhase (flat_map requestsCb (invoked (reads st))).
Proof.
  unfold drained. change writes with (queue WritePhase).
  rewrite enqueueList_queue. destruct st; reflexivity.
Qed.

(** ** The timer's side of the state is untouched by [read] and [write] *)

Lemma enqueue_timer (r : phase * callback) (st : State) :
  timeoutId (enqueue r st) = timeoutId st /\ timers (enqueue r st) = timers st.
Proof.
  destruct r as [q cb]. unfold enqueue.
  destruct st as [rs ws [h|] tid fr tm nh un lg]; destruct q; split; reflexivity.
Qed.

Lemma enqueueList_timer (l : list (phase * callback)) (st : State) :
  timeoutId (enqueueList l st) = timeoutId st
  /\ timers (enqueueList l st) = timers st.
Proof.
  revert st. induction l as [|r l IH]; intros st; [split; reflexivity|].
  cbn [enqueueList fold_left]. fold (enqueueList l (enqueue r st)).
  destruct (IH (enqueue r st)) as [H1 H2]. destruct (enqueue_timer r st) as [H3 H4].
  split; congruence.
Qed.

(** ** The frame's side: a request is pending after any [read] or [write] *)

Lemma enqueue_frame (r : phase * callback) (st : State) :
  rafId (enqueue r st) = Some (handleOf st)
  /\ frameRequests (enqueue r st) = frameAfter st.
Proof.
  destruct r as [q cb]. unfold enqueue, handleOf, frameAfter.
  destruct st as [rs ws [h|] tid fr tm nh un lg]; destruct q; split; reflexivity.
Qed.

Lemma enqueueList_frame (l : list (phase * callback)) (st : State) :
  l <> [] ->
  rafId (enqueueList l st) = Some (handleOf st)
  /\ frameRequests (enqueueList l st) = frameAfter st.
Proof.
  revert st. induction l as [|r l IH]; intros st Hne; [congruence|].
  cbn [enqueueList fold_left]. fold (enqueueList l (enqueue r st)).
  destruct (enqueue_frame r st) as [H1 H2].
  destruct l as [|r' l]; [split; assumption|].
  destruct (IH (enqueue r st)) as [H3 H4]; [discriminate|].
  rewrite H3, H4. unfold handleOf, frameAfter. rewrite H1. split; [reflexivity|exact H2].
Qed.

(** ** The ids agree with what is pending at the host *)

Lemma consistent_enqueue (r : phase * callback) (st : State) :
  consistent st -> consistent (enqueue r st).
Proof.
  intros [Hf Ht]. unfold consistent.
  destruct (enqueue_frame r st) as [H1 H2]. destruct (enqueue_timer r st) as [H3 H4].
  rewrite H1, H2, H3, H4. split; [|exact Ht].
  unfold pendingIs, handleOf, frameAfter in *.
  destruct (rafId st); [exact Hf|]. rewrite Hf. reflexivity.
Qed.

Lemma consistent_enqueueList (l : list (phase * callback)) (st : State) :
  consistent st -> consistent (enqueueList l st).
Proof.
  revert st. induction l as [|r l IH]; intros st H; [exact H|].
  cbn [enqueueList fold_left]. apply IH, consistent_enqueue, H.
Qed.

Lemma consistent_drained (p : phase) (st : State) :
  consistent st -> consistent (drained p st).
Proof.
  intros H. unfold drained. apply consistent_enqueueList.
  destruct st, p; exact H.
Qed.

Lemma consistent_armed (st : State) : consistent st -> consistent (armed st).
Proof.
  intros [Hf Ht]. unfold consistent, armed, pendingIs in *.
  destruct st as [rs ws rid [t|] fr tm nh un lg]; cbn in *; split; try assumption.
  rewrite Ht. reflexivity.
Qed.

Lemma consistent_reported (st : State) : consistent st -> consistent (reported st).
Proof. intros H. destruct st; exact H. Qed.

(** The invariant of the scheduler: [rafId] and [timeoutId] are set exactly
    while a frame callback, respectively a timer, is pending; it holds
    initially and is kept by [read], [write] and both signals. *)
Lemma consistent_initial : consistent initial.
Proof. split; reflexivity. Qed.

Lemma consistent_refresh (st : State) : consistent st -> consistent (refresh st).
Proof.
  intros H. pose proof H as [Hf Ht]. unfold pendingIs in Hf.
  destruct (rafId st) as [h|] eqn:Er.
  - rewrite (refresh_spec st h Hf). cbn zeta.
    assert (Hc : consistent
                   (drained WritePhase (set_rafId None (set_frameRequests [] st)))).
    { apply consistent_drained. split; [reflexivity|exact Ht]. }
    destruct (forallb returnsCb (writes st));
      [apply consistent_armed | apply consistent_reported]; exact Hc.
  - rewrite refresh_idle by exact Hf. exact H.
Qed.

Lemma consistent_tick (st : State) : consistent st -> consistent (tick st).
Proof.
  intros H. pose proof H as [Hf Ht]. unfold pendingIs in Ht.
  destruct (timeoutId st) as [t|] eqn:Et.
  - rewrite (tick_spec st t [] Ht). cbn zeta.
    assert (Hc : consistent
                   (drained ReadPhase (set_timeoutId None (set_timers [] st)))).
    { apply consistent_drained. split; [exact Hf|reflexivity]. }
    destruct (forallb returnsCb (reads st));
      [|apply consistent_reported]; exact Hc.
  - rewrite tick_idle by exact Ht. exact H.
Qed.

(** ** Arming the timer *)

Lemma armed_queues (st : State) :
  reads (armed st) = reads st /\ writes (armed st) = writes st
  /\ log (armed st) = log st.
Proof. unfold armed. destruct (timeoutId st); repeat split; reflexivity. Qed.

Lemma armed_frame (st : State) :
  rafId (armed st) = rafId st /\ frameRequests (armed st) = frameRequests st.
Proof. unfold armed. destruct (timeoutId st); split; reflexivity. Qed.

Lemma armed_pending (st : State) : timeoutId (armed st) <> None.
Proof. unfold armed. destruct (timeoutId st) eqn:E; cbn; congruence. Qed.

(** ** A synchronous turn of client code *)

Lemma forEach_write (ws : list callback) (st : State) :
  forEach write ws st = (Normal tt, enqueueList (map (pair WritePhase) ws) st).
Proof.
  revert st. induction ws as [|w ws IH]; intros st; [reflexivity|].
  cbn [forEach]. unfold bind. rewrite write_spec, IH. reflexivity.
Qed.

Lemma forEach_read (rs : list callback) (st : State) :
  forEach read rs st = (Normal tt, enqueueList (map (pair ReadPhase) rs) st).
Proof.
  revert st. induction rs as [|r rs IH]; intros st; [reflexivity|].
  cbn [forEach]. unfold bind. rewrite read_spec, IH. reflexivity.
Qed.

Lemma enqueueAll_spec (ws rs : list callback) (st : State) :
  run_task (enqueueAll ws rs) st =
  enqueueList (map (pair WritePhase) ws ++ map (pair ReadPhase) rs) st.
Proof.
  unfold run_task, enqueueAll, bind. rewrite forEach_write, forEach_read.
  rewrite enqueueList_app. reflexivity.
Qed.

Lemma toQueue_same (p : phase) (l : list callback) :
  toQueue p (map (pair p) l) = l.
Proof.
  unfold toQueue. induction l as [|c l IH]; [reflexivity|].
  cbn. destruct p; cbn; rewrite IH; reflexivity.
Qed.

Lemma toQueue_other (p q : phase) (l : list callback) :
  phase_eqb q p = false -> toQueue p (map (pair q) l) = [].
Proof.
  intros H. unfold toQueue. induction l as [|c l IH]; [reflexivity|].
  cbn. rewrite H. exact IH.
Qed.

Lemma in_toQueue (p : phase) (cb : callback) (l : list (phase * callback)) :
  In (p, cb) l -> In cb (toQueue p l).
Proof.
  intros H. unfold toQueue. apply in_map_iff. exists (p, cb). split; [reflexivity|].
  apply filter_In. split; [exact H|]. destruct p; reflexivity.
Qed.

(** ** One phase, seen from outside *)

(** The write phase.  When a frame is pending (or nothing is queued) and no
    queued write callback throws, the refresh signal runs the queued write
    callbacks in order and leaves in the queues what they requested. *)
Lemma refresh_effect (st : State) :
  consistent st ->
  forallb returnsCb (writes st) = true ->
  (rafId st = None -> writes st = []) ->
  log (refresh st) = log st ++ map (Ran WritePhase) (writes st)
  /\ writes (refresh st) = toQueue WritePhase (flat_map requestsCb (writes st))
  /\ reads (refresh st) =
       reads st ++ toQueue ReadPhase (flat_map requestsCb (writes st))
  /\ (rafId st <> None -> timeoutId (refresh st) <> None).
Proof.
  intros [Hf Ht] Hret Hidle. unfold pendingIs in Hf.
  destruct (rafId st) as [h|] eqn:Er.
  - rewrite (refresh_spec st h Hf). cbn zeta. rewrite Hret.
    set (st0 := set_rafId None (set_frameRequests [] st)).
    destruct (armed_queues (drained WritePhase st0)) as (Hr & Hw & Hl).
    rewrite Hr, Hw, Hl, drained_log, drained_reads_of_writes.
    change (writes (drained WritePhase st0))
      with (queue WritePhase (drained WritePhase st0)).
    rewrite drained_queue.
    change (queue WritePhase st0) with (writes st).
    change (writes st0) with (writes st).
    change (reads st0) with (reads st). change (log st0) with (log st).
    rewrite (invoked_all _ Hret), skipn_all. cbn [app].
    repeat split. intros _. apply armed_pending.
  - rewrite refresh_idle by exact Hf. rewrite (Hidle eq_refl). cbn.
    rewrite !app_nil_r. repeat split. congruence.
Qed.

(** The read phase, likewise, at the timer signal. *)
Lemma tick_effect (st : State) :
  consistent st ->
  forallb returnsCb (reads st) = true ->
  (timeoutId st = None -> reads st = []) ->
  log (tick st) = log st ++ map (Ran ReadPhase) (reads st)
  /\ reads (tick st) = toQueue ReadPhase (flat_map requestsCb (reads st))
  /\ writes (tick st) =
       writes st ++ toQueue WritePhase (flat_map requestsCb (reads st)).
Proof.
  intros [Hf Ht] Hret Hidle. unfold pendingIs in Ht.
  destruct (timeoutId st) as [t|] eqn:Et.
  - rewrite (tick_spec st t [] Ht). cbn zeta. rewrite Hret.
    set (st0 := set_timeoutId None (set_timers [] st)).
    rewrite drained_log, drained_writes_of_reads.
    change (reads (drained ReadPhase st0))
      with (queue ReadPhase (drained ReadPhase st0)).
    rewrite drained_queue.
    change (queue ReadPhase st0) with (reads st).
    change (writes st0) with (writes st).
    change (reads st0) with (reads st). change (log st0) with (log st).
    rewrite (invoked_all _ Hret), skipn_all. cbn [app].
    repeat split.
  - rewrite tick_idle by exact Ht. rewrite (Hidle eq_refl). cbn.
    rewrite !app_nil_r. repeat split.
Qed.

Lemma enqueueList_idle (l : list (phase * callback)) (st : State) :
  rafId (enqueueList l st) = None -> l = [].
Proof.
  intros H. destruct l as [|r l]; [reflexivity|].
  destruct (enqueueList_frame (r :: l) st) as [H1 _]; [discriminate|]. congruence.
Qed.

(** ** Failures *)

(** C1, as the code has it: when a queued callback throws, the loop of its
    phase ends there.  The callbacks queued before it have run in order, the
    throwing one has been invoked, and the callbacks queued after it have not
    run: they are still in the queue, in order, ahead of what was requested
    meanwhile. *)
Theorem drain_stops_at_failure
    (p : phase) (st : State) (pre post : list callback) (bad : callback) :
  queue p st = pre ++ bad :: post ->
  forallb returnsCb pre = true ->
  returnsCb bad = false ->
  exists st' : State,
    drain p (length (queue p st)) st = (Abrupt, st')
    /\ log st' = log st ++ map (Ran p) pre ++ [Ran p bad]
    /\ queue p st' = post ++ toQueue p (flat_map requestsCb (pre ++ [bad])).
Proof.
  intros Hq Hpre Hbad. exists (drained p st).
  rewrite drain_all, drained_log, drained_queue, Hq.
  rewrite (forallb_throw pre post bad Hbad).
  rewrite (invoked_throw pre post bad Hpre Hbad).
  rewrite map_app. cbn [map outcome].
  split; [reflexivity|]. split; [reflexivity|].
  replace (length (pre ++ [bad])) with (length pre + 1)
    by (rewrite length_app; reflexivity).
  rewrite skipn_app, Nat.add_comm.
  replace (1 + length pre - length pre) with 1 by lia.
  rewrite skipn_all2 by lia. reflexivity.
Qed.

Lemma drain_stops_at_failure_witness :
  exists st' : State,
    drain WritePhase 3
          (run_task (enqueueAll [plain; faulty; movePopout] []) initial) =
    (Abrupt, st')
    /\ log st' = [Ran WritePhase plain; Ran WritePhase faulty]
    /\ queue WritePhase st' = [movePopout].
Proof.
  exact (drain_stops_at_failure WritePhase
           (run_task (enqueueAll [plain; faulty; movePopout] []) initial)
           [plain] [movePopout] faulty eq_refl eq_refl eq_refl).
Defined.

(** C1, as stated, fails: with [faulty] queued ahead of [plain], the write
    loop never invokes [plain]. *)
Lemma failureIsolated_fails : ~ failureIsolated.
Proof.
  intros H.
  specialize (H WritePhase (run_task (enqueueAll [faulty; plain] []) initial) faulty).
  specialize (H (or_introl eq_refl) eq_refl plain (or_intror (or_introl eq_refl))).
  vm_compute in H. destruct H as [H | []]. discriminate H.
Qed.

(** The same run seen from the host: the refresh signal invokes [faulty],
    the exception reaches the host, [plain] stays queued, the timer is not
    armed, and the read callback of that activation does not run at the
    timer signal. *)
Example refresh_with_failure :
  let st := activation (run_task (enqueueAll [faulty; plain] [measure]) initial) in
  log st = [Ran WritePhase faulty]
  /\ writes st = [plain] /\ reads st = [measure]
  /\ uncaught st = 1 /\ rafId st = None /\ timeoutId st = None.
Proof. vm_compute. repeat split. Qed.

(** ** One activation *)

(** C2: [k] write callbacks and then [m] read callbacks enqueued in one turn
    are, after the refresh signal and the timer signal, exactly the callbacks
    that have run: the writes first, in the order enqueued, then the reads, in
    the order enqueued.  The callbacks return, and the write callbacks
    request no read.  Each loop runs as many callbacks as its queue held when
    it started: what the callbacks requested is still queued afterwards. *)
Theorem activation_runs_batch (st0 : State) (ws rs : list callback) :
  consistent st0 ->
  reads st0 = [] ->
  writes st0 = [] ->
  forallb returnsCb (ws ++ rs) = true ->
  toQueue ReadPhase (flat_map requestsCb ws) = [] ->
  let st1 := run_task (enqueueAll ws rs) st0 in
  let st2 := activation st1 in
  log st2 = log st0 ++ map (Ran WritePhase) ws ++ map (Ran ReadPhase) rs
  /\ writes st2 = toQueue WritePhase (flat_map requestsCb (ws ++ rs))
  /\ reads st2 = toQueue ReadPhase (flat_map requestsCb rs).
Proof.
  intros Hc Hr0 Hw0 Hret Hnoread. cbn zeta. rewrite enqueueAll_spec.
  set (l := map (pair WritePhase) ws ++ map (pair ReadPhase) rs).
  set (st1 := enqueueList l st0).
  rewrite forallb_app in Hret. apply andb_true_iff in Hret as [Hretw Hretr].
  assert (Hw1 : writes st1 = ws).
  { unfold st1, l. change writes with (queue WritePhase).
    rewrite enqueueList_queue, toQueue_app, toQueue_same, toQueue_other by reflexivity.
    cbn [queue]. rewrite Hw0, app_nil_r. reflexivity. }
  assert (Hr1 : reads st1 = rs).
  { unfold st1, l. change reads with (queue ReadPhase).
    rewrite enqueueList_queue, toQueue_app, toQueue_same, toQueue_other by reflexivity.
    cbn [queue]. rewrite Hr0. reflexivity. }
  assert (Hl1 : log st1 = log st0) by apply enqueueList_log.
  assert (Hc1 : consistent st1) by (apply consistent_enqueueList; exact Hc).
  assert (Hidle : rafId st1 = None -> ws = [] /\ rs = []).
  { intros H. apply enqueueList_idle in H. unfold l in H.
    apply app_eq_nil in H as [H1 H2].
    apply map_eq_nil in H1. apply map_eq_nil in H2. split; assumption. }
  destruct (refresh_effect st1 Hc1) as (Hl2 & Hw2 & Hr2 & Ht2).
  { rewrite Hw1. exact Hretw. }
  { intros H. rewrite Hw1. apply Hidle, H. }
  rewrite Hw1 in Hl2, Hw2, Hr2. rewrite Hr1, Hnoread, app_nil_r in Hr2.
  destruct (tick_effect (refresh st1) (consistent_refresh st1 Hc1)) as (Hl3 & Hr3 & Hw3).
  { rewrite Hr2. exact Hretr. }
  { intros H. rewrite Hr2.
    destruct (rafId st1) eqn:E; [exfalso; apply Ht2; [discriminate|exact H]|].
    apply Hidle. reflexivity. }
  unfold activation. rewrite Hl3, Hw3, Hr3, Hl2, Hw2, Hr2, Hl1.
  rewrite flat_map_app, toQueue_app, <- app_assoc. repeat split.
Qed.

Lemma activation_runs_batch_witness :
  let st2 :=
    activation (run_task (enqueueAll [plain; colourBoundary] [measure; plain]) initial) in
  log st2 =
    [Ran WritePhase plain; Ran WritePhase colourBoundary;
     Ran ReadPhase measure; Ran ReadPhase plain]
  /\ writes st2 = [colourBoundary; movePopout]
  /\ reads st2 = [].
Proof.
  exact (activation_runs_batch initial [plain; colourBoundary] [measure; plain]
           consistent_initial eq_refl eq_refl eq_refl eq_refl).
Defined.

(** ** Handles *)





(** A loop whose callbacks request something leaves a frame request
    pending. *)
Lemma drained_requested (p : phase) (st : State) :
  flat_map requestsCb (invoked (queue p st)) <> [] ->
  rafId (drained p st) = Some (handleOf st).
Proof.
  intros Hne. unfold drained.
  destruct (enqueueList_frame _
              (note (map (Ran p) (invoked (queue p st)))
                    (dequeue p (length (invoked (queue p st))) st)) Hne) as [H _].
  rewrite H. destruct st, p; reflexivity.
Qed.

Lemma ranDuring_app (st st' : State) (evs : list event) :
  log st' = log st ++ evs -> ranDuring st st' = evs.
Proof.
  intros H. unfold ranDuring. rewrite H, skipn_app, skipn_all, Nat.sub_diag.
  reflexivity.
Qed.

(** ** A write requested by a read callback *)



(** The run of the witness, step by step. *)
Example positioning_cycle :
  let s0 := run_task (read measure) initial in
  let s2 := activation s0 in
  let s4 := activation s2 in
  log s2 = [Ran ReadPhase measure]
  /\ writes s2 = [colourBoundary; movePopout]
  /\ rafId s2 = Some 3%positive
  /\ log s4 =
       [Ran ReadPhase measure; Ran WritePhase colourBoundary; Ran WritePhase movePopout]
  /\ writes s4 = [] /\ reads s4 = [].
Proof. vm_compute. repeat split. Qed.

End SchedulerFacts.

(* ================================================================== *)
(** * Further properties of the geometry *)
(* ================================================================== *)

Module GeometryMore.

Import Geometry.
Import GeometryFacts.
Local Open Scope Z_scope.

(** ** Helpers *)

Lemma lt_false (a b : Z) : lt a b = false <-> b <= a.
Proof. unfold lt. apply Z.ltb_ge. Qed.

Lemma gt_false (a b : Z) : gt a b = false <-> a <= b.
Proof. unfold gt. apply Z.ltb_ge. Qed.

Lemma sides_eq (s t : Sides bool) :
  s = t <-> (forall d : Direction, get s d = get t d).
Proof.
  split; [intros ->; reflexivity|]. intros H.
  destruct s as [sb sl sr st], t as [tb tl tr tt].
  pose proof (H Bottom) as Hb. pose proof (H Left) as Hl.
  pose proof (H Right) as Hr. pose proof (H Top) as Ht.
  cbn in *. congruence.
Qed.

(** For a well-formed rectangle, no side overflows exactly when the
    rectangle lies within the boundary. *)
Lemma noOverflow_iff (rect boundary : Position) :
  wellFormed rect ->
  (checkBoundaryOutOfBounds rect boundary = noOverflow <-> contains boundary rect).
Proof.
  intros [Hv Hh]. unfold checkBoundaryOutOfBounds, noOverflow, contains. split.
  - intros H. injection H as Hb Hl Hr Ht.
    apply orb_false_iff in Hb as [Hb1 Hb2]. apply orb_false_iff in Hl as [Hl1 Hl2].
    apply orb_false_iff in Hr as [Hr1 Hr2]. apply orb_false_iff in Ht as [Ht1 Ht2].
    rewrite lt_false in Hl1, Hl2, Ht1, Ht2. rewrite gt_false in Hb1, Hb2, Hr1, Hr2.
    lia.
  - intros (H1 & H2 & H3 & H4).
    assert (E1 : gt (bottom rect) (bottom boundary) = false) by (apply gt_false; lia).
    assert (E2 : gt (top rect) (bottom boundary) = false) by (apply gt_false; lia).
    assert (E3 : lt (left rect) (left boundary) = false) by (apply lt_false; lia).
    assert (E4 : lt (right rect) (left boundary) = false) by (apply lt_false; lia).
    assert (E5 : gt (left rect) (right boundary) = false) by (apply gt_false; lia).
    assert (E6 : gt (right rect) (right boundary) = false) by (apply gt_false; lia).
    assert (E7 : lt (top rect) (top boundary) = false) by (apply lt_false; lia).
    assert (E8 : lt (bottom rect) (top boundary) = false) by (apply lt_false; lia).
    rewrite E1, E2, E3, E4, E5, E6, E7, E8. reflexivity.
Qed.

Lemma isContained_noOverflow (r b : ClientRect) :
  isContained r b = true <->
  checkBoundaryOutOfBounds (asPosition r) (asPosition b) = noOverflow.
Proof.
  unfold isContained, keys. cbn [existsb].
  destruct (checkBoundaryOutOfBounds (asPosition r) (asPosition b)) as [sb sl sr st].
  cbn [get bottom left right top]. unfold noOverflow.
  destruct sb, sl, sr, st; cbn; split; intros H; try reflexivity; discriminate H.
Qed.

(** ** Directions *)

(** X1: the opposite of the opposite is the direction itself, and the
    opposite is never the direction itself. *)
Theorem oppositeDirection_pairs (d : Direction) :
  oppositeDirection (oppositeDirection d) = d /\ oppositeDirection d <> d.
Proof. destruct d; split; try reflexivity; discriminate. Qed.

(** ** Collision *)

(** X4: a side that does not overflow a boundary does not overflow a larger
    boundary either. *)
Theorem checkBoundaryOutOfBounds_monotone (rect small large : Position) (d : Direction) :
  contains large small ->
  get (checkBoundaryOutOfBounds rect small) d = false ->
  get (checkBoundaryOutOfBounds rect large) d = false.
Proof.
  intros (H1 & H2 & H3 & H4). unfold checkBoundaryOutOfBounds.
  destruct d; cbn [get bottom left right top]; rewrite !orb_false_iff;
    rewrite ?lt_false, ?gt_false; lia.
Qed.

Lemma checkBoundaryOutOfBounds_monotone_witness :
  contains (asPosition wideBoundary) (asPosition narrowBoundary)
  /\ get (checkBoundaryOutOfBounds
            (primaryPlacement sampleAnchor samplePopout Left)
            (asPosition wideBoundary)) Left = false.
Proof.
  split.
  - unfold contains. cbn. lia.
  - apply (checkBoundaryOutOfBounds_monotone _ (asPosition narrowBoundary)).
    + unfold contains. cbn. lia.
    + reflexivity.
Defined.

(** X5: for a well-formed rectangle, [isContained] holds exactly when the
    rectangle lies within the boundary, edges included. *)
Theorem isContained_iff_contains (r b : ClientRect) :
  wellFormed (asPosition r) ->
  (isContained r b = true <-> contains (asPosition b) (asPosition r)).
Proof.
  intros Hwf. rewrite isContained_noOverflow. apply noOverflow_iff, Hwf.
Qed.

Lemma isContained_iff_contains_witness :
  isContained narrowBoundary wideBoundary = true
  <-> contains (asPosition wideBoundary) (asPosition narrowBoundary).
Proof.
  apply isContained_iff_contains. unfold wellFormed. cbn. lia.
Defined.

(** X7: a well-formed rectangle that is no taller than the boundary does
    not overflow both at the top and at the bottom, and one that is no wider
    does not overflow both on the left and on the right. *)
Theorem opposite_sides_need_room (rect boundary : Position) :
  wellFormed rect ->
  let st := checkBoundaryOutOfBounds rect boundary in
  (bottom rect - top rect <= bottom boundary - top boundary ->
   top st && bottom st = false)
  /\ (right rect - left rect <= right boundary - left boundary ->
      left st && right st = false).
Proof.
  intros [Hv Hh]. cbn zeta. unfold checkBoundaryOutOfBounds.
  cbn [bottom left right top]. split; intros Hsize.
  - destruct (lt (top rect) (top boundary) || lt (bottom rect) (top boundary)) eqn:Et;
      [|reflexivity].
    cbn [andb]. apply orb_false_iff. rewrite !gt_false.
    apply orb_true_iff in Et. rewrite !lt_true in Et. lia.
  - destruct (lt (left rect) (left boundary) || lt (right rect) (left boundary)) eqn:El;
      [|reflexivity].
    cbn [andb]. apply orb_false_iff. rewrite !gt_false.
    apply orb_true_iff in El. rewrite !lt_true in El. lia.
Qed.

Lemma opposite_sides_need_room_witness :
  let rect := primaryPlacement sampleAnchor samplePopout Top in
  let st := checkBoundaryOutOfBounds rect (asPosition tightBoundary) in
  (bottom rect - top rect <= 140 - 90 -> top st && bottom st = false)
  /\ (right rect - left rect <= 140 - 90 -> left st && right st = false).
Proof.
  apply (opposite_sides_need_room
           (primaryPlacement sampleAnchor samplePopout Top) (asPosition tightBoundary)).
  unfold wellFormed. cbn. lia.
Defined.

(** ** The measuring callback *)

Lemma calculatePosition_right_earlier (a : Position) (dims : Dimensions) :
  Earlier.calculatePosition a dims = calculatePosition a dims Right.
Proof.
  unfold Earlier.calculatePosition, calculatePosition. f_equal; lia.
Qed.

(** X8: with the anchor and the popout present, the callback always comes
    to a result.  The rectangle is the primary or the opposite placement; the
    flag is [true] exactly when a boundary is attached, [flip] is on and the
    primary placement overflows on its own side, and with the flag [false]
    the rectangle is the primary one; the reported sides are those of the
    primary placement, also when the popout is flipped. *)
Theorem positionPopout_result (props : PopoutProps) (a p : Measurable) :
  anchor props = Some a ->
  let d := withDefault Right (direction props) in
  exists pl : Placement,
    positionPopout props (Some p) = Some pl
    /\ (position pl = primaryPlacement a p d \/ position pl = flippedPlacement a p d)
    /\ (flipped pl = true <->
        exists b, suppliedBoundary props = Some b
                  /\ withDefault false (flip props) = true
                  /\ get (checkBoundaryOutOfBounds (primaryPlacement a p d)
                                                   (asPosition b)) d = true)
    /\ (flipped pl = false -> position pl = primaryPlacement a p d)
    /\ outOufBoundsSides pl =
       option_map (fun b => checkBoundaryOutOfBounds (primaryPlacement a p d)
                                                     (asPosition b))
                  (suppliedBoundary props).
Proof.
  intros Ha. cbn zeta. unfold positionPopout. rewrite Ha.
  set (d := withDefault Right (direction props)).
  fold (primaryPlacement a p d). fold (flippedPlacement a p d).
  destruct (suppliedBoundary props) as [b|].
  - destruct (withDefault false (flip props)) eqn:Ef; cbn [andb].
    + destruct (get (checkBoundaryOutOfBounds (primaryPlacement a p d) (asPosition b)) d)
        eqn:Eo.
      * eexists. split; [reflexivity|]. cbn [position flipped outOufBoundsSides option_map].
        split.
        { destruct (get (checkBoundaryOutOfBounds (flippedPlacement a p d) (asPosition b))
                        (oppositeDirection d)); [|right; reflexivity].
          destruct (withDefault original (flipFailureRecovery props));
            [left; reflexivity|].
          destruct (oppositeDirection d); auto. }
        split; [split; [intros _; exists b; auto | reflexivity]|].
        split; [discriminate | reflexivity].
      * eexists. split; [reflexivity|]. cbn [position flipped outOufBoundsSides option_map].
        split; [left; reflexivity|].
        split; [split; [discriminate|]|split; reflexivity].
        intros (b' & Hb & _ & Ho). injection Hb as <-. congruence.
    + eexists. split; [reflexivity|]. cbn [position flipped outOufBoundsSides option_map].
      split; [left; reflexivity|].
      split; [split; [discriminate|]|split; reflexivity].
      intros (b' & _ & Hf & _). discriminate Hf.
  - eexists. split; [reflexivity|]. cbn [position flipped outOufBoundsSides option_map].
    split; [left; reflexivity|].
    split; [split; [discriminate|]|split; reflexivity].
    intros (b' & Hb & _). discriminate Hb.
Qed.

Lemma positionPopout_result_witness :
  let props := sampleProps (Some tightBoundary) Top true original in
  let d := withDefault Right (direction props) in
  exists pl : Placement,
    positionPopout props (Some samplePopout) = Some pl
    /\ (position pl = primaryPlacement sampleAnchor samplePopout d
        \/ position pl = flippedPlacement sampleAnchor samplePopout d)
    /\ (flipped pl = true <->
        exists b, suppliedBoundary props = Some b
                  /\ withDefault false (flip props) = true
                  /\ get (checkBoundaryOutOfBounds
                            (primaryPlacement sampleAnchor samplePopout d)
                            (asPosition b)) d = true)
    /\ (flipped pl = false -> position pl = primaryPlacement sampleAnchor samplePopout d)
    /\ outOufBoundsSides pl =
       option_map (fun b => checkBoundaryOutOfBounds
                              (primaryPlacement sampleAnchor samplePopout d)
                              (asPosition b))
                  (suppliedBoundary props).
Proof.
  exact (positionPopout_result (sampleProps (Some tightBoundary) Top true original)
           sampleAnchor samplePopout eq_refl).
Defined.

(** X10: the callback returns early exactly when the anchor or the popout
    element is missing. *)
Theorem positionPopout_none_iff (props : PopoutProps) (popoutRef : RefObject Measurable) :
  positionPopout props popoutRef = None <-> anchor props = None \/ popoutRef = None.
Proof.
  unfold positionPopout.
  destruct (anchor props) as [a|]; [|split; auto].
  destruct popoutRef as [p|]; [|split; auto].
  split; [|intros [H | H]; discriminate H].
  destruct (suppliedBoundary props); [|discriminate].
  destruct (_ && _); discriminate.
Qed.

(** X11: with a boundary attached and [flip] on, if the primary placement
    does not overflow on its side, or else the opposite placement does not
    overflow on the opposite side, then the popout is put where it has room:
    the result is a placement that does not overflow on the side it is
    attached to, whatever the recovery policy. *)
Theorem flip_finds_room (props : PopoutProps) (a p b : Measurable) :
  anchor props = Some a ->
  suppliedBoundary props = Some b ->
  withDefault false (flip props) = true ->
  let d := withDefault Right (direction props) in
  let fits (r : Position) (side : Direction) :=
    get (checkBoundaryOutOfBounds r (asPosition b)) side = false in
  fits (primaryPlacement a p d) d
  \/ fits (flippedPlacement a p d) (oppositeDirection d) ->
  exists pl : Placement,
    positionPopout props (Some p) = Some pl
    /\ ((position pl = primaryPlacement a p d /\ fits (position pl) d)
        \/ (position pl = flippedPlacement a p d
            /\ fits (position pl) (oppositeDirection d))).
Proof.
  intros Ha Hb Hf. cbn beta zeta. intros Hroom.
  unfold positionPopout. rewrite Ha, Hb, Hf. cbn [andb].
  set (d := withDefault Right (direction props)) in *.
  fold (primaryPlacement a p d). fold (flippedPlacement a p d).
  destruct (get (checkBoundaryOutOfBounds (primaryPlacement a p d) (asPosition b)) d)
    eqn:Eo.
  - destruct Hroom as [H | H]; [discriminate H|]. rewrite H.
    eexists. split; [reflexivity|]. right. split; [reflexivity | exact H].
  - eexists. split; [reflexivity|]. left. split; [reflexivity | exact Eo].
Qed.

Lemma flip_finds_room_witness :
  let props := sampleProps (Some narrowBoundary) Right true scrollable in
  let fits (r : Position) (side : Direction) :=
    get (checkBoundaryOutOfBounds r (asPosition narrowBoundary)) side = false in
  exists pl : Placement,
    positionPopout props (Some samplePopout) = Some pl
    /\ ((position pl = primaryPlacement sampleAnchor samplePopout Right
         /\ fits (position pl) Right)
        \/ (position pl = flippedPlacement sampleAnchor samplePopout Right
            /\ fits (position pl) Left)).
Proof.
  apply (flip_finds_room (sampleProps (Some narrowBoundary) Right true scrollable)
           sampleAnchor samplePopout narrowBoundary eq_refl eq_refl eq_refl).
  right. reflexivity.
Defined.

(** X12: asked for the direction [right] (the default) with [flip] off (the
    default), the callback computes the position and the sides that the
    earlier revision of the component, which knew no direction, computed. *)
Theorem positionPopout_extends_earlier
    (props : PopoutProps) (popoutRef : RefObject Measurable) :
  withDefault Right (direction props) = Right ->
  withDefault false (flip props) = false ->
  option_map (fun pl => (position pl, outOufBoundsSides pl))
             (positionPopout props popoutRef) =
  Earlier.positionPopout (anchor props) (boundary props) popoutRef.
Proof.
  intros Hd Hf. unfold positionPopout, Earlier.positionPopout, suppliedBoundary.
  rewrite Hd, Hf. cbn [andb].
  destruct (anchor props) as [a|]; [|reflexivity].
  destruct popoutRef as [p|]; [|reflexivity].
  rewrite calculatePosition_right_earlier.
  destruct (boundary props) as [[b|]|]; reflexivity.
Qed.

Lemma positionPopout_extends_earlier_witness :
  let props :=
    {| anchor := Some sampleAnchor; boundary := Some (Some narrowBoundary);
       direction := None; flip := None; flipFailureRecovery := None |} in
  option_map (fun pl => (position pl, outOufBoundsSides pl))
             (positionPopout props (Some samplePopout)) =
  Earlier.positionPopout (Some sampleAnchor) (Some (Some narrowBoundary))
                         (Some samplePopout).
Proof.
  exact (positionPopout_extends_earlier
           {| anchor := Some sampleAnchor; boundary := Some (Some narrowBoundary);
              direction := None; flip := None; flipFailureRecovery := None |}
           (Some samplePopout) eq_refl eq_refl).
Defined.

(** ** The viewport as a boundary *)

(** X13: a well-formed rectangle is contained in the viewport exactly when
    it lies between 0 and the window's width and height; and the viewport of
    the earlier revisions is this one moved by the scroll offsets. *)
Theorem isContained_viewport (r : ClientRect) (innerWidth innerHeight : Z) :
  wellFormed (asPosition r) ->
  (isContained r (viewport innerWidth innerHeight) = true <->
   0 <= ctop r /\ cbottom r <= innerHeight /\ 0 <= cleft r /\ cright r <= innerWidth)
  /\ (forall scrollX scrollY : Z,
        Earlier.viewport innerWidth innerHeight scrollX scrollY =
        translateRect scrollX scrollY (viewport innerWidth innerHeight)).
Proof.
  intros Hwf. split.
  - rewrite isContained_noOverflow, (noOverflow_iff _ _ Hwf). reflexivity.
  - intros sx sy. unfold Earlier.viewport, translateRect, viewport.
    cbn [cbottom cheight cleft cright ctop cwidth]. f_equal; lia.
Qed.

Lemma isContained_viewport_witness :
  (isContained sampleAnchor (viewport 1024 768) = true <->
   0 <= ctop sampleAnchor /\ cbottom sampleAnchor <= 768
   /\ 0 <= cleft sampleAnchor /\ cright sampleAnchor <= 1024)
  /\ (forall scrollX scrollY : Z,
        Earlier.viewport 1024 768 scrollX scrollY =
        translateRect scrollX scrollY (viewport 1024 768)).
Proof.
  apply (isContained_viewport sampleAnchor 1024 768). unfold wellFormed. cbn. lia.
Defined.

End GeometryMore.

(* ================================================================== *)
(** * Properties of the colouring of the boundary *)
(* ================================================================== *)

Module StylingFacts.

Import Ascii String.
Import Geometry Styling.
Local Open Scope string_scope.

(** The key built from a direction's name is the CSS property of that
    side's border colour. *)
Lemma borderColorKey_keyName (d : Direction) :
  borderColorKey (keyName d) = cssBorderColor d.
Proof. destruct d; reflexivity. Qed.

Lemma paintBoundary_unfold (sides : Sides bool) (style : Style) :
  paintBoundary sides style =
  assign (cssBorderColor Top) (if top sides then "orange" else "green")
    (assign (cssBorderColor Right) (if right sides then "orange" else "green")
       (assign (cssBorderColor Left) (if left sides then "orange" else "green")
          (assign (cssBorderColor Bottom) (if bottom sides then "orange" else "green")
             style))).
Proof. reflexivity. Qed.

(** X14: the callback sets the border-colour property of each of the four
    sides, to [orange] when that side overflows and to [green] when it does
    not, and it leaves every other style property as it was. *)
Theorem paintBoundary_colours (sides : Sides bool) (style : Style) :
  (forall d : Direction,
     lookup (cssBorderColor d) (paintBoundary sides style) =
     Some (if get sides d then "orange" else "green"))
  /\ (forall key : string,
        (forall d : Direction, key <> cssBorderColor d) ->
        lookup key (paintBoundary sides style) = lookup key style).
Proof.
  rewrite paintBoundary_unfold. split.
  - intros d. destruct d; reflexivity.
  - intros key Hkey. unfold assign. cbn [lookup].
    rewrite (proj2 (String.eqb_neq _ _) (Hkey Top)).
    rewrite (proj2 (String.eqb_neq _ _) (Hkey Right)).
    rewrite (proj2 (String.eqb_neq _ _) (Hkey Left)).
    rewrite (proj2 (String.eqb_neq _ _) (Hkey Bottom)).
    reflexivity.
Qed.

End StylingFacts.

(* ================================================================== *)
(** * Further properties of the scheduler *)
(* ================================================================== *)

Module SchedulerMore.

Import Scheduler.
Import SchedulerFacts.
Local Open Scope sched_scope.

(** ** Helpers *)

Lemma run_read (cb : callback) (st : State) :
  run_task (read cb) st = enqueue (ReadPhase, cb) st.
Proof. unfold run_task. rewrite read_spec. reflexivity. Qed.

Lemma run_write (cb : callback) (st : State) :
  run_task (write cb) st = enqueue (WritePhase, cb) st.
Proof. unfold run_task. rewrite write_spec. reflexivity. Qed.

Lemma enqueue_pending (r : phase * callback) (st : State) (h : positive) :
  rafId st = Some h ->
  rafId (enqueue r st) = Some h
  /\ frameRequests (enqueue r st) = frameRequests st
  /\ nextHandle (enqueue r st) = nextHandle st.
Proof.
  destruct r as [q cb]. unfold enqueue.
  destruct st as [rs ws [h'|] tid fr tm nh un lg]; cbn; intros H;
    [|discriminate H].
  destruct q; repeat split; assumption.
Qed.

Lemma enqueueList_pending (l : list (phase * callback)) (st : State) (h : positive) :
  rafId st = Some h ->
  rafId (enqueueList l st) = Some h
  /\ frameRequests (enqueueList l st) = frameRequests st
  /\ nextHandle (enqueueList l st) = nextHandle st.
Proof.
  revert st. induction l as [|r l IH]; intros st H; [repeat split; exact H|].
  cbn [enqueueList fold_left]. fold (enqueueList l (enqueue r st)).
  destruct (enqueue_pending r st h H) as (H1 & H2 & H3).
  destruct (IH (enqueue r st) H1) as (H4 & H5 & H6).
  repeat split; congruence.
Qed.

Lemma pendingIs_length (id : option positive) (l : list positive) :
  pendingIs id l -> length l <= 1.
Proof. unfold pendingIs. destruct id; intros ->; cbn; lia. Qed.

Lemma invoked_prefix (l : list callback) :
  l = invoked l ++ skipn (length (invoked l)) l.
Proof.
  induction l as [|cb l IH]; [reflexivity|].
  cbn [invoked]. destruct (returnsCb cb); cbn [length skipn app]; [|reflexivity].
  f_equal. exact IH.
Qed.

(** What a refresh signal does in any consistent state, exceptions
    included: it invokes a prefix of the write queue, leaves the rest at the
    head of the queue, and removes nothing from the read queue. *)
Lemma refresh_general (st : State) :
  consistent st ->
  exists inv rest newW newR,
    writes st = inv ++ rest
    /\ log (refresh st) = log st ++ map (Ran WritePhase) inv
    /\ writes (refresh st) = rest ++ newW
    /\ reads (refresh st) = reads st ++ newR.
Proof.
  intros [Hf Ht]. unfold pendingIs in Hf.
  destruct (rafId st) as [h|] eqn:Er.
  - set (x0 := set_rafId None (set_frameRequests [] st)).
    exists (invoked (writes st)), (skipn (length (invoked (writes st))) (writes st)),
           (toQueue WritePhase (flat_map requestsCb (invoked (writes st)))),
           (toQueue ReadPhase (flat_map requestsCb (invoked (writes st)))).
    split; [apply invoked_prefix|].
    assert (H : log (drained WritePhase x0) =
                log st ++ map (Ran WritePhase) (invoked (writes st))
                /\ writes (drained WritePhase x0) =
                   skipn (length (invoked (writes st))) (writes st)
                   ++ toQueue WritePhase (flat_map requestsCb (invoked (writes st)))
                /\ reads (drained WritePhase x0) =
                   reads st
                   ++ toQueue ReadPhase (flat_map requestsCb (invoked (writes st)))).
    { rewrite drained_log, drained_reads_of_writes.
      change (writes (drained WritePhase x0))
        with (queue WritePhase (drained WritePhase x0)).
      rewrite drained_queue. repeat split. }
    destruct H as (Hl & Hw & Hr).
    rewrite (refresh_spec st h Hf). cbn zeta. fold x0.
    destruct (forallb returnsCb (writes st)).
    + destruct (armed_queues (drained WritePhase x0)) as (Er' & Ew' & El').
      rewrite El', Ew', Er'. repeat split; assumption.
    + repeat split; assumption.
  - exists [], (writes st), [], []. rewrite refresh_idle by exact Hf.
    cbn. rewrite !app_nil_r. repeat split.
Qed.

(** The timer signal, likewise, on the read queue. *)
Lemma tick_general (st : State) :
  consistent st ->
  exists inv rest newR newW,
    reads st = inv ++ rest
    /\ log (tick st) = log st ++ map (Ran ReadPhase) inv
    /\ reads (tick st) = rest ++ newR
    /\ writes (tick st) = writes st ++ newW.
Proof.
  intros [Hf Ht]. unfold pendingIs in Ht.
  destruct (timeoutId st) as [t|] eqn:Et.
  - set (x0 := set_timeoutId None (set_timers [] st)).
    exists (invoked (reads st)), (skipn (length (invoked (reads st))) (reads st)),
           (toQueue ReadPhase (flat_map requestsCb (invoked (reads st)))),
           (toQueue WritePhase (flat_map requestsCb (invoked (reads st)))).
    split; [apply invoked_prefix|].
    assert (H : log (drained ReadPhase x0) =
                log st ++ map (Ran ReadPhase) (invoked (reads st))
                /\ reads (drained ReadPhase x0) =
                   skipn (length (invoked (reads st))) (reads st)
                   ++ toQueue ReadPhase (flat_map requestsCb (invoked (reads st)))
                /\ writes (drained ReadPhase x0) =
                   writes st
                   ++ toQueue WritePhase (flat_map requestsCb (invoked (reads st)))).
    { rewrite drained_log, drained_writes_of_reads.
      change (reads (drained ReadPhase x0))
        with (queue ReadPhase (drained ReadPhase x0)).
      rewrite drained_queue. repeat split. }
    destruct H as (Hl & Hr & Hw).
    rewrite (tick_spec st t [] Ht). cbn zeta. fold x0.
    destruct (forallb returnsCb (reads st)); repeat split; assumption.
  - exists [], (reads st), [], []. rewrite tick_idle by exact Ht.
    cbn. rewrite !app_nil_r. repeat split.
Qed.

(** ** [read] and [write] *)

(** X15: [read(cb)] returns the new length of the read queue, puts [cb] at
    its end, leaves the write queue alone, runs nothing, and leaves a frame
    request pending; [write(cb)] does the same with the write queue. *)
Theorem read_write_append (cb : callback) (st : State) :
  (exists st',
     read cb st = (Normal (S (length (reads st))), st')
     /\ reads st' = reads st ++ [cb] /\ writes st' = writes st
     /\ log st' = log st /\ rafId st' <> None)
  /\ (exists st',
        write cb st = (Normal (S (length (writes st))), st')
        /\ writes st' = writes st ++ [cb] /\ reads st' = reads st
        /\ log st' = log st /\ rafId st' <> None).
Proof.
  split.
  - exists (enqueue (ReadPhase, cb) st). split; [apply read_spec|].
    destruct (enqueue_frame (ReadPhase, cb) st) as [Hraf _].
    rewrite enqueue_log, Hraf.
    pose proof (enqueue_queue (ReadPhase, cb) ReadPhase st) as Hr.
    pose proof (enqueue_queue (ReadPhase, cb) WritePhase st) as Hw.
    cbn in Hr, Hw. rewrite app_nil_r in Hw.
    repeat split; try assumption. discriminate.
  - exists (enqueue (WritePhase, cb) st). split; [apply write_spec|].
    destruct (enqueue_frame (WritePhase, cb) st) as [Hraf _].
    rewrite enqueue_log, Hraf.
    pose proof (enqueue_queue (WritePhase, cb) ReadPhase st) as Hr.
    pose proof (enqueue_queue (WritePhase, cb) WritePhase st) as Hw.
    cbn in Hr, Hw. rewrite app_nil_r in Hr.
    repeat split; try assumption. discriminate.
Qed.

(** X16: however many callbacks one turn enqueues, a single frame request
    is pending afterwards; if one was pending already it is kept and the host
    is asked for nothing; no timer is set by enqueuing. *)
Theorem one_frame_per_batch (st : State) (ws rs : list callback) :
  consistent st ->
  ws ++ rs <> [] ->
  let st' := run_task (enqueueAll ws rs) st in
  (exists h : positive, rafId st' = Some h /\ frameRequests st' = [h])
  /\ (forall h0 : positive,
        rafId st = Some h0 ->
        rafId st' = Some h0 /\ frameRequests st' = frameRequests st
        /\ nextHandle st' = nextHandle st)
  /\ timeoutId st' = timeoutId st /\ timers st' = timers st.
Proof.
  intros Hc Hne. cbn zeta. rewrite enqueueAll_spec.
  set (l := map (pair WritePhase) ws ++ map (pair ReadPhase) rs).
  assert (Hl : l <> []).
  { intros E. apply Hne. unfold l in E. apply app_eq_nil in E as [E1 E2].
    apply map_eq_nil in E1. apply map_eq_nil in E2. subst. reflexivity. }
  destruct (enqueueList_frame l st Hl) as [Hraf _].
  pose proof (consistent_enqueueList l st Hc) as [Hp _].
  rewrite Hraf in Hp. cbn in Hp.
  destruct (enqueueList_timer l st) as [Ht1 Ht2].
  split; [exists (handleOf st); split; assumption|].
  split; [intros h0 H0; apply enqueueList_pending; exact H0|].
  split; assumption.
Qed.

Lemma one_frame_per_batch_witness :
  let st' := run_task (enqueueAll [plain; plain] [measure]) initial in
  (exists h : positive, rafId st' = Some h /\ frameRequests st' = [h])
  /\ (forall h0 : positive,
        rafId initial = Some h0 ->
        rafId st' = Some h0 /\ frameRequests st' = frameRequests initial
        /\ nextHandle st' = nextHandle initial)
  /\ timeoutId st' = timeoutId initial /\ timers st' = timers initial.
Proof.
  apply (one_frame_per_batch initial [plain; plain] [measure] consistent_initial).
  discriminate.
Defined.

(** ** The invariant *)

Lemma consistent_perform (a : action) (st : State) :
  consistent st -> consistent (perform a st).
Proof.
  intros H. destruct a as [cb|cb| |]; cbn [perform].
  - rewrite run_read. apply consistent_enqueue, H.
  - rewrite run_write. apply consistent_enqueue, H.
  - apply consistent_refresh, H.
  - apply consistent_tick, H.
Qed.

(** X17: in every state that calls of [read] and [write] and the host's
    signals, in any order, lead to from the initial one, [rafId] is set
    exactly while one frame callback is pending and [timeoutId] exactly while
    one timer is pending; never is more than one of either pending. *)
Theorem reachable_consistent (l : list action) :
  let st := runActions l initial in
  consistent st
  /\ length (frameRequests st) <= 1
  /\ length (timers st) <= 1.
Proof.
  cbn zeta.
  assert (H : forall st, consistent st -> consistent (runActions l st)).
  { induction l as [|a l IH]; intros st Hc; [exact Hc|].
    cbn [runActions fold_left]. apply IH, consistent_perform, Hc. }
  specialize (H initial consistent_initial). split; [exact H|].
  destruct H as [Hf Ht]. split; eapply pendingIs_length; eassumption.
Qed.

(** ** The loops *)

(** X18: whatever the queued callbacks do, a loop invokes callbacks that
    were in its queue when it started, in queue order from the head and each
    entry once, and nothing else: its run is a prefix of that queue; the rest
    of the queue stays, and what was requested meanwhile comes after it. *)
Theorem drain_invokes_prefix (p : phase) (st : State) :
  let q := queue p st in
  let st' := snd (drain p (length q) st) in
  exists rest : list callback,
    q = invoked q ++ rest
    /\ ranDuring st st' = map (Ran p) (invoked q)
    /\ queue p st' = rest ++ toQueue p (flat_map requestsCb (invoked q))
    /\ (fst (drain p (length q) st) = Abrupt <-> forallb returnsCb q = false).
Proof.
  cbn zeta. rewrite drain_all. cbn [fst snd].
  exists (skipn (length (invoked (queue p st))) (queue p st)).
  split; [apply invoked_prefix|].
  split; [apply ranDuring_app, drained_log|].
  split; [apply drained_queue|].
  destruct (forallb returnsCb (queue p st)); cbn; split; congruence.
Qed.

(** X19: an activation loses no callback, exceptions or not: a callback
    that was in a queue before the activation has either been invoked in the
    phase of that queue or is still in that queue afterwards. *)
Theorem activation_keeps_callbacks (st : State) (cb : callback) :
  consistent st ->
  (In cb (writes st) ->
   In (Ran WritePhase cb) (ranDuring st (activation st))
   \/ In cb (writes (activation st)))
  /\ (In cb (reads st) ->
      In (Ran ReadPhase cb) (ranDuring st (activation st))
      \/ In cb (reads (activation st))).
Proof.
  intros Hc. unfold activation.
  destruct (refresh_general st Hc) as (inv1 & rest1 & nw1 & nr1 & Hq1 & Hl1 & Hw1 & Hr1).
  destruct (tick_general (refresh st) (consistent_refresh st Hc))
    as (inv2 & rest2 & nr2 & nw2 & Hq2 & Hl2 & Hr2 & Hw2).
  assert (Hran : ranDuring st (tick (refresh st)) =
                 map (Ran WritePhase) inv1 ++ map (Ran ReadPhase) inv2).
  { apply ranDuring_app. rewrite Hl2, Hl1, <- app_assoc. reflexivity. }
  rewrite Hran, Hw2, Hw1, Hr2. split; intros Hin.
  - rewrite Hq1 in Hin. apply in_app_or in Hin as [Hin | Hin].
    + left. apply in_or_app. left. apply in_map, Hin.
    + right. apply in_or_app. left. apply in_or_app. left. exact Hin.
  - assert (Hin' : In cb (reads (refresh st))).
    { rewrite Hr1. apply in_or_app. left. exact Hin. }
    rewrite Hq2 in Hin'. apply in_app_or in Hin' as [Hin' | Hin'].
    + left. apply in_or_app. right. apply in_map, Hin'.
    + right. apply in_or_app. left. exact Hin'.
Qed.

Lemma activation_keeps_callbacks_witness :
  let st := run_task (enqueueAll [faulty; plain] [measure]) initial in
  (In plain (writes st) ->
   In (Ran WritePhase plain) (ranDuring st (activation st))
   \/ In plain (writes (activation st)))
  /\ (In plain (reads st) ->
      In (Ran ReadPhase plain) (ranDuring st (activation st))
      \/ In plain (reads (activation st))).
Proof.
  apply (activation_keeps_callbacks
           (run_task (enqueueAll [faulty; plain] [measure]) initial) plain).
  split; reflexivity.
Defined.

(** ** Across the two phases *)

(** X20: a read callback that a write callback enqueues runs in the read
    phase of the very same activation (the callbacks of the activation
    returning). *)
Theorem read_from_write_same_activation (s0 : State) (h : positive) (w r : callback) :
  consistent s0 ->
  rafId s0 = Some h ->
  forallb returnsCb (writes s0) = true ->
  forallb returnsCb (reads (refresh s0)) = true ->
  In w (writes s0) ->
  In (ReadPhase, r) (requestsCb w) ->
  In (Ran ReadPhase r) (ranDuring s0 (activation s0)).
Proof.
  intros Hc Hraf Hretw Hretr Hw Hreq.
  destruct (refresh_effect s0 Hc Hretw) as (Hl1 & _ & Hr1 & Ht1).
  { rewrite Hraf. discriminate. }
  destruct (tick_effect (refresh s0) (consistent_refresh s0 Hc) Hretr) as (Hl2 & _).
  { intros E. exfalso. apply Ht1; [rewrite Hraf; discriminate | exact E]. }
  unfold activation.
  rewrite (ranDuring_app s0 (tick (refresh s0))
             (map (Ran WritePhase) (writes s0)
              ++ map (Ran ReadPhase) (reads (refresh s0))))
    by (rewrite Hl2, Hl1, <- app_assoc; reflexivity).
  apply in_or_app. right. apply in_map. rewrite Hr1.
  apply in_or_app. right. apply in_toQueue, in_flat_map.
  exists w. split; assumption.
Qed.

Lemma read_from_write_same_activation_witness :
  In (Ran ReadPhase plain)
     (ranDuring (run_task (write (Cb 5 [CallRead plain])) initial)
                (activation (run_task (write (Cb 5 [CallRead plain])) initial))).
Proof.
  apply (read_from_write_same_activation
           (run_task (write (Cb 5 [CallRead plain])) initial) 1%positive
           (Cb 5 [CallRead plain]) plain).
  - split; reflexivity.
  - reflexivity.
  - reflexivity.
  - reflexivity.
  - left. reflexivity.
  - left. reflexivity.
Defined.

Lemma skipn_app_exact {A : Type} (l1 l2 : list A) :
  skipn (length l1) (l1 ++ l2) = l2.
Proof.
  rewrite skipn_app, skipn_all, Nat.sub_diag. reflexivity.
Qed.

(** X21: when a write callback throws, with no timer pending and nothing
    requested by the callbacks invoked, the exception reaches the host once,
    and the write callbacks queued behind it and all read callbacks are
    stranded: neither a frame nor a timer is pending, so the host's signals
    change nothing, however many follow.  The next call of [write] gets the
    stranded write callbacks going again, ahead of the new one. *)
Theorem failed_write_phase_strands
    (st : State) (h : positive) (pre post : list callback) (bad : callback) :
  consistent st ->
  rafId st = Some h ->
  timeoutId st = None ->
  writes st = pre ++ bad :: post ->
  forallb returnsCb pre = true ->
  returnsCb bad = false ->
  flat_map requestsCb (pre ++ [bad]) = [] ->
  let s1 := refresh st in
  writes s1 = post /\ reads s1 = reads st
  /\ uncaught s1 = S (uncaught st)
  /\ rafId s1 = None /\ timeoutId s1 = None
  /\ (forall n : nat, activations n s1 = s1)
  /\ (forall cb : callback,
        forallb returnsCb (post ++ [cb]) = true ->
        ranDuring s1 (refresh (run_task (write cb) s1)) =
        map (Ran WritePhase) (post ++ [cb])).
Proof.
  intros Hc Hraf Htid Hq Hpre Hbad Hnoreq. cbn zeta.
  pose proof Hc as [Hf Ht]. rewrite Hraf in Hf. rewrite Htid in Ht. cbn in Hf, Ht.
  pose proof (consistent_refresh st Hc) as Hc1.
  assert (Hs1 : refresh st =
                reported (note (map (Ran WritePhase) (pre ++ [bad]))
                               (dequeue WritePhase (length (pre ++ [bad]))
                                        (set_rafId None (set_frameRequests [] st))))).
  { rewrite (refresh_spec st h Hf). cbn zeta.
    rewrite Hq, (forallb_throw pre post bad Hbad).
    unfold drained. cbn [queue set_rafId set_frameRequests writes].
    rewrite Hq, (invoked_throw pre post bad Hpre Hbad), Hnoreq. reflexivity. }
  assert (Hw1 : writes (refresh st) = post).
  { rewrite Hs1. cbn. rewrite Hq.
    replace (pre ++ bad :: post) with ((pre ++ [bad]) ++ post)
      by (rewrite <- app_assoc; reflexivity).
    apply skipn_app_exact. }
  assert (Hr1 : reads (refresh st) = reads st) by (rewrite Hs1; reflexivity).
  assert (Hu1 : uncaught (refresh st) = S (uncaught st)) by (rewrite Hs1; reflexivity).
  assert (Hraf1 : rafId (refresh st) = None) by (rewrite Hs1; reflexivity).
  assert (Htid1 : timeoutId (refresh st) = None) by (rewrite Hs1; exact Htid).
  assert (Hf1 : frameRequests (refresh st) = []) by (rewrite Hs1; reflexivity).
  assert (Ht1 : timers (refresh st) = []) by (rewrite Hs1; exact Ht).
  repeat (split; [assumption|]).
  split.
  - intros n. induction n as [|n IH]; [reflexivity|].
    unfold activations in *.
    change (Nat.iter (S n) activation (refresh st))
      with (activation (Nat.iter n activation (refresh st))).
    rewrite IH.
    unfold activation. rewrite (refresh_idle _ Hf1). apply tick_idle, Ht1.
  - intros cb Hret. rewrite run_write.
    set (s2 := enqueue (WritePhase, cb) (refresh st)).
    assert (Hw2 : writes s2 = post ++ [cb]).
    { unfold s2. change writes with (queue WritePhase).
      rewrite enqueue_queue. cbn [queue]. rewrite Hw1. reflexivity. }
    assert (Hl2 : log s2 = log (refresh st)) by apply enqueue_log.
    destruct (enqueue_frame (WritePhase, cb) (refresh st)) as [Hraf2 _].
    fold s2 in Hraf2.
    destruct (refresh_effect s2 (consistent_enqueue _ _ Hc1)) as (Hl3 & _).
    { rewrite Hw2. exact Hret. }
    { rewrite Hraf2. discriminate. }
    apply ranDuring_app. rewrite Hl3, Hl2, Hw2. reflexivity.
Qed.

Lemma failed_write_phase_strands_witness :
  let s1 := refresh (run_task (enqueueAll [plain; faulty; movePopout] [plain]) initial) in
  writes s1 = [movePopout]
  /\ reads s1 = reads (run_task (enqueueAll [plain; faulty; movePopout] [plain]) initial)
  /\ uncaught s1 =
     S (uncaught (run_task (enqueueAll [plain; faulty; movePopout] [plain]) initial))
  /\ rafId s1 = None /\ timeoutId s1 = None
  /\ (forall n : nat, activations n s1 = s1)
  /\ (forall cb : callback,
        forallb returnsCb ([movePopout] ++ [cb]) = true ->
        ranDuring s1 (refresh (run_task (write cb) s1)) =
        map (Ran WritePhase) ([movePopout] ++ [cb])).
Proof.
  apply (failed_write_phase_strands
           (run_task (enqueueAll [plain; faulty; movePopout] [plain]) initial)
           1%positive [plain] [movePopout] faulty).
  - split; reflexivity.
  - reflexivity.
  - reflexivity.
  - reflexivity.
  - reflexivity.
  - reflexivity.
  - reflexivity.
Defined.

(** ** Coming to rest *)

Lemma drained_nothing (p : phase) (st : State) :
  queue p st = [] -> drained p st = st.
Proof.
  intros H. unfold drained. rewrite H. cbn. rewrite dequeue_zero. apply note_nil.
Qed.

Lemma drained_timer (p : phase) (st : State) :
  timeoutId (drained p st) = timeoutId st /\ timers (drained p st) = timers st.
Proof.
  unfold drained.
  destruct (enqueueList_timer
              (flat_map requestsCb (invoked (queue p st)))
              (note (map (Ran p) (invoked (queue p st)))
                    (dequeue p (length (invoked (queue p st))) st))) as [H1 H2].
  rewrite H1, H2. destruct st, p; split; reflexivity.
Qed.

Lemma drained_quiet (p : phase) (st : State) :
  flat_map requestsCb (invoked (queue p st)) = [] ->
  rafId (drained p st) = rafId st.
Proof.
  intros E. unfold drained. rewrite E. unfold enqueueList. cbn [fold_left].
  destruct st, p; reflexivity.
Qed.

Lemma drained_rafId_none (p : phase) (st : State) :
  rafId (drained p st) = None ->
  rafId st = None /\ flat_map requestsCb (invoked (queue p st)) = [].
Proof.
  intros H. destruct (flat_map requestsCb (invoked (queue p st))) as [|r l] eqn:E.
  - split; [|reflexivity]. rewrite <- H. symmetry. apply drained_quiet, E.
  - exfalso. rewrite drained_requested in H by (rewrite E; discriminate).
    discriminate H.
Qed.

Lemma idle_consistent (st : State) : idle st -> consistent st.
Proof.
  intros (_ & _ & Hr & Ht & Hf & Htm). split; unfold pendingIs.
  - rewrite Hr. exact Hf.
  - rewrite Ht. exact Htm.
Qed.

Lemma settled_idle (st : State) : settled st -> rafId st = None -> idle st.
Proof.
  intros ((Hf & Ht) & Htid & Hq) Hr. destruct (Hq Hr) as [Hrs Hws].
  unfold pendingIs in *. rewrite Hr in Hf. rewrite Htid in Ht.
  repeat split; assumption.
Qed.

(** One activation from a settled state, the callbacks returning: the
    write queue runs, then the read queue together with the reads that the
    write callbacks requested; what was requested besides is queued, and the
    state is settled again. *)
Lemma activation_step (st : State) :
  settled st ->
  let ws := writes st in
  let rs := reads st ++ toQueue ReadPhase (flat_map requestsCb ws) in
  forallb returnsCb ws = true ->
  forallb returnsCb rs = true ->
  settled (activation st)
  /\ log (activation st) =
     log st ++ map (Ran WritePhase) ws ++ map (Ran ReadPhase) rs
  /\ writes (activation st) =
     toQueue WritePhase (flat_map requestsCb ws)
     ++ toQueue WritePhase (flat_map requestsCb rs)
  /\ reads (activation st) = toQueue ReadPhase (flat_map requestsCb rs)
  /\ (flat_map requestsCb ws = [] -> flat_map requestsCb rs = [] ->
      rafId (activation st) = None).
Proof.
  intros Hs. pose proof Hs as (Hc & Htid & Hidle). cbn zeta. intros Hretw Hretr.
  pose proof Hc as [Hf Ht]. unfold pendingIs in Hf, Ht. rewrite Htid in Ht.
  unfold activation.
  destruct (rafId st) as [h|] eqn:Eraf.
  - (* a frame is pending *)
    set (x0 := set_rafId None (set_frameRequests [] st)).
    set (d0 := drained WritePhase x0).
    assert (Hs1 : refresh st = armed d0).
    { rewrite (refresh_spec st h Hf). cbn zeta. rewrite Hretw. reflexivity. }
    pose proof (consistent_refresh st Hc) as Hc1.
    assert (Hd0 : log d0 = log st ++ map (Ran WritePhase) (writes st)
                  /\ writes d0 = toQueue WritePhase (flat_map requestsCb (writes st))
                  /\ reads d0 =
                     reads st ++ toQueue ReadPhase (flat_map requestsCb (writes st))).
    { unfold d0. rewrite drained_log, drained_reads_of_writes.
      change (writes (drained WritePhase x0))
        with (queue WritePhase (drained WritePhase x0)).
      rewrite drained_queue.
      change (queue WritePhase x0) with (writes st).
      change (writes x0) with (writes st).
      rewrite (invoked_all _ Hretw), skipn_all. repeat split. }
    destruct Hd0 as (Hl0 & Hw0 & Hr0).
    destruct (armed_queues d0) as (Hr1 & Hw1 & Hl1).
    destruct (armed_frame d0) as [Hraf1 _].
    rewrite <- Hs1 in Hr1, Hw1, Hl1, Hraf1.
    assert (Ht1 : exists t, timers (refresh st) = [t]).
    { destruct Hc1 as [_ Hp]. unfold pendingIs in Hp.
      destruct (timeoutId (refresh st)) as [t|] eqn:Et; [exists t; exact Hp|].
      exfalso. rewrite Hs1 in Et. exact (armed_pending _ Et). }
    destruct Ht1 as [t Ht1].
    set (x1 := set_timeoutId None (set_timers [] (refresh st))).
    set (d1 := drained ReadPhase x1).
    assert (Hreads1 : reads (refresh st) =
                      reads st ++ toQueue ReadPhase (flat_map requestsCb (writes st)))
      by (rewrite Hr1; exact Hr0).
    assert (Hs2 : tick (refresh st) = d1).
    { rewrite (tick_spec _ t [] Ht1). cbn zeta. rewrite Hreads1, Hretr. reflexivity. }
    assert (Hd1 : log d1 = log (refresh st) ++ map (Ran ReadPhase) (reads (refresh st))
                  /\ reads d1 =
                     toQueue ReadPhase (flat_map requestsCb (reads (refresh st)))
                  /\ writes d1 =
                     writes (refresh st)
                     ++ toQueue WritePhase (flat_map requestsCb (reads (refresh st)))).
    { unfold d1. rewrite drained_log, drained_writes_of_reads.
      change (reads (drained ReadPhase x1))
        with (queue ReadPhase (drained ReadPhase x1)).
      rewrite drained_queue.
      change (queue ReadPhase x1) with (reads (refresh st)).
      change (reads x1) with (reads (refresh st)).
      assert (Hinv : invoked (reads (refresh st)) = reads (refresh st))
        by (apply invoked_all; rewrite Hreads1; exact Hretr).
      rewrite Hinv, skipn_all. repeat split. }
    destruct Hd1 as (Hl2 & Hr2 & Hw2).
    rewrite Hs2.
    assert (Hrafd1 : rafId d1 = None ->
                     flat_map requestsCb (writes st) = []
                     /\ flat_map requestsCb (reads (refresh st)) = []).
    { intros E. apply drained_rafId_none in E as [E1 E2].
      change (rafId x1) with (rafId (refresh st)) in E1.
      change (queue ReadPhase x1) with (reads (refresh st)) in E2.
      rewrite Hraf1 in E1. apply drained_rafId_none in E1 as [_ E3].
      change (queue WritePhase x0) with (writes st) in E3.
      rewrite (invoked_all _ Hretw) in E3.
      rewrite invoked_all in E2 by (rewrite Hreads1; exact Hretr).
      split; assumption. }
    split; [|split; [|split; [|split]]].
    + split; [rewrite <- Hs2; apply consistent_tick, Hc1|].
      split; [destruct (drained_timer ReadPhase x1) as [E _]; exact E|].
      intros E. destruct (Hrafd1 E) as [E1 E2].
      rewrite Hr2, Hw2, Hw1, Hw0, E1, E2. split; reflexivity.
    + rewrite Hl2, Hl1, Hl0, Hreads1, <- app_assoc. reflexivity.
    + rewrite Hw2, Hw1, Hw0, Hreads1. reflexivity.
    + rewrite Hr2, Hreads1. reflexivity.
    + intros E1 E2. unfold d1. rewrite drained_quiet.
      * change (rafId x1) with (rafId (refresh st)). rewrite Hraf1.
        unfold d0. rewrite drained_quiet; [reflexivity|].
        change (queue WritePhase x0) with (writes st).
        rewrite (invoked_all _ Hretw). exact E1.
      * change (queue ReadPhase x1) with (reads (refresh st)).
        rewrite invoked_all by (rewrite Hreads1; exact Hretr).
        rewrite Hreads1. exact E2.
  - (* nothing is pending, so nothing is queued *)
    destruct (Hidle eq_refl) as [Hrs Hws].
    rewrite (refresh_idle st Hf), (tick_idle st Ht), Hws, Hrs. cbn.
    rewrite app_nil_r. split; [exact Hs|]. repeat split. intros _ _. exact Eraf.
Qed.

(** What a callback requests nests less deeply than the callback, and is
    well behaved if the callback is. *)
Lemma requests_calls (cmds : list cmd) (p : phase) (c : callback) :
  In (p, c) (requests cmds) -> In (CallRead c) cmds \/ In (CallWrite c) cmds.
Proof.
  induction cmds as [|x cmds IH]; cbn; [tauto|].
  destruct x as [y|y|]; cbn; [| |tauto].
  - intros [E | H]; [injection E as _ ->; auto | destruct (IH H); auto].
  - intros [E | H]; [injection E as _ ->; auto | destruct (IH H); auto].
Qed.

Lemma requests_nest (cb c : callback) (p : phase) :
  In (p, c) (requestsCb cb) ->
  depth c < depth cb /\ (wellBehaved cb = true -> wellBehaved c = true).
Proof.
  destruct cb as [n cmds]. unfold requestsCb. cbn [body depth wellBehaved].
  intros H. apply requests_calls in H. split.
  - set (f := fun x : cmd =>
                match x with
                | CallRead y | CallWrite y => S (depth y)
                | Throw => 0
                end).
    pose proof (proj1 (list_max_le (map f cmds) (list_max (map f cmds))) (le_n _)) as HF.
    rewrite Forall_forall in HF.
    destruct H as [H | H]; apply (in_map f) in H; apply HF in H; cbn in H; lia.
  - intros Hwb. rewrite forallb_forall in Hwb.
    destruct H as [H | H]; apply Hwb in H; exact H.
Qed.

Lemma wellBehaved_returns (cb : callback) :
  wellBehaved cb = true -> returnsCb cb = true.
Proof.
  destruct cb as [n cmds]. unfold returnsCb. cbn [body wellBehaved].
  induction cmds as [|x cmds IH]; cbn; [reflexivity|].
  destruct x; cbn; intros H; try discriminate H;
    apply andb_true_iff in H as [_ H]; exact (IH H).
Qed.

Lemma toQueue_in (p : phase) (c : callback) (l : list (phase * callback)) :
  In c (toQueue p l) -> In (p, c) l.
Proof.
  unfold toQueue. intros H. apply in_map_iff in H as ([q c'] & E & H).
  apply filter_In in H as [H Hq]. cbn in E, Hq. subst c'.
  destruct q, p; try discriminate Hq; exact H.
Qed.

Lemma tame_requests (n : nat) (l : list callback) (p : phase) :
  tame (S n) l -> tame n (toQueue p (flat_map requestsCb l)).
Proof.
  intros H c Hc. apply toQueue_in, in_flat_map in Hc as (cb & Hcb & Hreq).
  destruct (H cb Hcb) as [Hwb Hd]. destruct (requests_nest cb c p Hreq) as [Hd' Hwb'].
  split; [exact (Hwb' Hwb) | lia].
Qed.

Lemma tame_weaken (n : nat) (l : list callback) : tame n l -> tame (S n) l.
Proof. intros H c Hc. destruct (H c Hc). split; [assumption | lia]. Qed.

Lemma tame_app (n : nat) (l1 l2 : list callback) :
  tame n l1 -> tame n l2 -> tame n (l1 ++ l2).
Proof. intros H1 H2 c Hc. apply in_app_or in Hc as [Hc | Hc]; auto. Qed.

Lemma tame_returns (n : nat) (l : list callback) :
  tame n l -> forallb returnsCb l = true.
Proof.
  intros H. apply forallb_forall. intros c Hc.
  apply wellBehaved_returns. exact (proj1 (H c Hc)).
Qed.

Lemma consistent_activations (n : nat) (st : State) :
  consistent st -> consistent (activations n st).
Proof.
  intros H. induction n as [|n IH]; [exact H|].
  unfold activations in *. cbn [Nat.iter].
  apply consistent_tick, consistent_refresh, IH.
Qed.

(** The log only grows. *)
Lemma activations_log (n : nat) (st : State) :
  consistent st -> exists evs, log (activations n st) = log st ++ evs.
Proof.
  intros H. induction n as [|n IH].
  - exists []. cbn. rewrite app_nil_r. reflexivity.
  - destruct IH as [e0 He0].
    pose proof (consistent_activations n st H) as Hc.
    destruct (refresh_general _ Hc) as (i1 & _ & _ & _ & _ & Hl1 & _).
    destruct (tick_general _ (consistent_refresh _ Hc)) as (i2 & _ & _ & _ & _ & Hl2 & _).
    exists (e0 ++ map (Ran WritePhase) i1 ++ map (Ran ReadPhase) i2).
    change (activations (S n) st) with (tick (refresh (activations n st))).
    rewrite Hl2, Hl1, He0, <- !app_assoc. reflexivity.
Qed.

Lemma quiesce_aux (n : nat) :
  forall st : State,
    settled st ->
    tame n (writes st ++ reads st) ->
    idle (activations (S n) st).
Proof.
  induction n as [|n IH]; intros st Hs Ht.
  - assert (Hw : writes st = []).
    { destruct (writes st) as [|c l]; [reflexivity|].
      destruct (Ht c (or_introl eq_refl)) as [_ H]. lia. }
    assert (Hr : reads st = []).
    { destruct (reads st) as [|c l]; [reflexivity|].
      rewrite Hw in Ht. destruct (Ht c (or_introl eq_refl)) as [_ H]. lia. }
    destruct (activation_step st Hs) as (Hs' & _ & _ & _ & Hraf).
    { rewrite Hw. reflexivity. }
    { rewrite Hr, Hw. reflexivity. }
    apply settled_idle; [exact Hs'|]. apply Hraf; rewrite ?Hr, Hw; reflexivity.
  - unfold activations. rewrite Nat.iter_succ_r.
    assert (Htw : tame (S n) (writes st)).
    { intros c Hc. apply Ht, in_or_app. left. exact Hc. }
    assert (Htr : tame (S n)
                    (reads st ++ toQueue ReadPhase (flat_map requestsCb (writes st)))).
    { apply tame_app.
      - intros c Hc. apply Ht, in_or_app. right. exact Hc.
      - apply tame_weaken, tame_requests, Htw. }
    destruct (activation_step st Hs (tame_returns _ _ Htw) (tame_returns _ _ Htr))
      as (Hs' & _ & Hw' & Hr' & _).
    apply IH; [exact Hs'|]. rewrite Hw', Hr'.
    repeat apply tame_app; apply tame_requests; assumption.
Qed.

(** X22: from a settled state whose queued callbacks are well behaved and
    nest less than [n] deep, [n + 1] activations bring the scheduler to rest:
    every callback queued at the start has been invoked in its phase, both
    queues are empty, and neither a frame nor a timer is pending. *)
Theorem scheduler_quiesces (n : nat) (st : State) :
  settled st ->
  (forall cb, In cb (writes st ++ reads st) -> wellBehaved cb = true /\ depth cb < n) ->
  let st' := activations (S n) st in
  idle st'
  /\ (forall cb, In cb (writes st) -> In (Ran WritePhase cb) (ranDuring st st'))
  /\ (forall cb, In cb (reads st) -> In (Ran ReadPhase cb) (ranDuring st st')).
Proof.
  intros Hs Ht. cbn zeta. split; [apply quiesce_aux; assumption|].
  assert (Htw : tame n (writes st)).
  { intros c Hc. apply Ht, in_or_app. left. exact Hc. }
  assert (Htr : tame n (reads st ++ toQueue ReadPhase (flat_map requestsCb (writes st)))).
  { apply tame_app.
    - intros c Hc. apply Ht, in_or_app. right. exact Hc.
    - destruct n as [|n]; [|apply tame_weaken, tame_requests, Htw].
      intros c Hc. apply toQueue_in, in_flat_map in Hc as (w & Hw & _).
      destruct (Htw w Hw) as [_ H]. lia. }
  destruct (activation_step st Hs (tame_returns _ _ Htw) (tame_returns _ _ Htr))
    as ((Hc' & _) & Hl' & _).
  destruct (activations_log n (activation st) Hc') as [evs Hevs].
  assert (Hran : ranDuring st (activations (S n) st) =
                 (map (Ran WritePhase) (writes st)
                  ++ map (Ran ReadPhase)
                       (reads st ++ toQueue ReadPhase (flat_map requestsCb (writes st))))
                 ++ evs).
  { apply ranDuring_app. unfold activations in *. rewrite Nat.iter_succ_r.
    rewrite Hevs, Hl', <- !app_assoc. reflexivity. }
  rewrite Hran. split; intros cb Hcb.
  - apply in_or_app. left. apply in_or_app. left. apply in_map, Hcb.
  - apply in_or_app. left. apply in_or_app. right. apply in_map.
    apply in_or_app. left. exact Hcb.
Qed.

Lemma scheduler_quiesces_witness :
  let st := run_task (enqueueAll [plain] [measure]) initial in
  let st' := activations 3 st in
  idle st'
  /\ (forall cb, In cb (writes st) -> In (Ran WritePhase cb) (ranDuring st st'))
  /\ (forall cb, In cb (reads st) -> In (Ran ReadPhase cb) (ranDuring st st')).
Proof.
  apply (scheduler_quiesces 2 (run_task (enqueueAll [plain] [measure]) initial)).
  - split; [split; reflexivity|]. split; [reflexivity|]. discriminate.
  - intros cb [<- | [<- | []]]; split; cbn; try reflexivity; lia.
Defined.

(** ** What does not hold without conditions on the callbacks *)

(** C2, as stated, fails: a write callback that calls [read] gets a read
    callback run in the same activation, though none was enqueued by the
    turn. *)
Lemma batchRunsExactly_fails : ~ batchRunsExactly.
Proof.
  intros H. specialize (H [writeThatReads] []).
  vm_compute in H. discriminate H.
Qed.


End SchedulerMore.

(* ================================================================== *)
(** * Properties of the positioning cycle *)
(* ================================================================== *)

Module ComponentFacts.

Import Scheduler.
Import SchedulerFacts.
Import SchedulerMore.
Import Component.

Section Cycle.

Variable props : Geometry.PopoutProps.
Variable popoutRef : Geometry.RefObject Geometry.Measurable.
Variable styled : bool.

Lemma cycleWrites_cases :
  cycleWrites props popoutRef styled =
  match Geometry.anchor props, popoutRef with
  | Some _, Some _ =>
      match Geometry.suppliedBoundary props with
      | Some _ => [colourBoundaryOf styled; movePopout]
      | None => [movePopout]
      end
  | _, _ => []
  end.
Proof.
  unfold cycleWrites, readCallback, requestsCb. cbn [body].
  unfold Geometry.positionPopout.
  destruct (Geometry.anchor props) as [a|]; [|reflexivity].
  destruct popoutRef as [p|]; [|reflexivity].
  destruct (Geometry.suppliedBoundary props) as [b|]; [|reflexivity].
  destruct (_ && _)%bool; reflexivity.
Qed.

Lemma readCallback_requests :
  let cb := readCallback props popoutRef styled in
  returnsCb cb = true
  /\ toQueue ReadPhase (requestsCb cb) = []
  /\ flat_map requestsCb (toQueue WritePhase (requestsCb cb)) = [].
Proof.
  cbn zeta. unfold readCallback, returnsCb, requestsCb. cbn [body].
  destruct (Geometry.positionPopout props popoutRef) as [pl|];
    [destruct (Geometry.outOufBoundsSides pl); [destruct styled|]|]; repeat split.
Qed.

End Cycle.

(** An activation whose first write callback throws, having requested
    nothing: only that callback is invoked, the rest of the write queue and
    the read queue stay, and nothing is pending afterwards. *)
Lemma activation_first_write_throws (st : State) (bad : callback) (post : list callback) :
  settled st ->
  writes st = bad :: post ->
  returnsCb bad = false ->
  requestsCb bad = [] ->
  log (activation st) = log st ++ [Ran WritePhase bad]
  /\ writes (activation st) = post
  /\ reads (activation st) = reads st
  /\ rafId (activation st) = None
  /\ timeoutId (activation st) = None.
Proof.
  intros (Hc & Htid & Hq) Hw Hbad Hreq.
  pose proof Hc as [Hf Ht]. unfold pendingIs in Hf, Ht. rewrite Htid in Ht.
  destruct (rafId st) as [h|] eqn:Er.
  2:{ destruct (Hq eq_refl) as [_ E]. rewrite E in Hw. discriminate Hw. }
  assert (Hs : refresh st =
               reported (note [Ran WritePhase bad]
                              (dequeue WritePhase 1
                                       (set_rafId None (set_frameRequests [] st))))).
  { rewrite (refresh_spec st h Hf). cbn zeta. rewrite Hw.
    cbn [forallb]. rewrite Hbad. cbn [andb].
    unfold drained. cbn [queue set_rafId set_frameRequests writes]. rewrite Hw.
    cbn [invoked]. rewrite Hbad. cbn [flat_map map length]. rewrite Hreq.
    reflexivity. }
  unfold activation. rewrite tick_idle by (rewrite Hs; exact Ht).
  rewrite Hs. cbn. rewrite Hw. repeat split. exact Htid.
Qed.

(** X23: a positioning cycle started while the scheduler is idle.  The
    first activation runs the measuring callback and nothing else, and leaves
    its write callbacks queued: none when the anchor or the popout element is
    missing, the one that moves the popout when no boundary is attached, and
    before it the one that colours the boundary when one is.  When no
    boundary is attached or the boundary has a [style], the second activation
    runs these in that order and the scheduler is idle again.  When the
    attached boundary has no [style], the second activation invokes the
    colouring callback, which throws, and the callback that moves the popout
    stays queued with nothing pending. *)
Theorem positioning_cycle_completes
    (props : Geometry.PopoutProps) (popoutRef : Geometry.RefObject Geometry.Measurable)
    (styled : bool) (st0 : State) :
  idle st0 ->
  let s1 := run_task (positionPopout props popoutRef styled) st0 in
  let s2 := activation s1 in
  let s3 := activation s2 in
  ranDuring st0 s2 = [Ran ReadPhase (readCallback props popoutRef styled)]
  /\ writes s2 = cycleWrites props popoutRef styled
  /\ reads s2 = []
  /\ cycleWrites props popoutRef styled =
     match Geometry.anchor props, popoutRef with
     | Some _, Some _ =>
         match Geometry.suppliedBoundary props with
         | Some _ => [colourBoundaryOf styled; movePopout]
         | None => [movePopout]
         end
     | _, _ => []
     end
  /\ (Geometry.suppliedBoundary props = None \/ styled = true
      \/ Geometry.anchor props = None \/ popoutRef = None ->
      ranDuring s2 s3 = map (Ran WritePhase) (cycleWrites props popoutRef styled)
      /\ idle s3)
  /\ (styled = false ->
      Geometry.suppliedBoundary props <> None ->
      Geometry.anchor props <> None ->
      popoutRef <> None ->
      ranDuring s2 s3 = [Ran WritePhase (colourBoundaryOf false)]
      /\ writes s3 = [movePopout]
      /\ rafId s3 = None /\ timeoutId s3 = None).
Proof.
  intros Hidle. cbn zeta. unfold positionPopout. rewrite run_read.
  set (cb := readCallback props popoutRef styled).
  set (s1 := enqueue (ReadPhase, cb) st0).
  destruct (readCallback_requests props popoutRef styled) as (Hret & Hnoread & Hquiet).
  fold cb in Hret, Hnoread, Hquiet.
  pose proof Hidle as (Hr0 & Hw0 & _ & Ht0 & _).
  assert (Hs1 : settled s1).
  { split; [apply consistent_enqueue, idle_consistent, Hidle|].
    split.
    - destruct (enqueue_timer (ReadPhase, cb) st0) as [E _]. unfold s1.
      rewrite E. exact Ht0.
    - destruct (enqueue_frame (ReadPhase, cb) st0) as [E _]. unfold s1.
      rewrite E. discriminate. }
  assert (Hw1 : writes s1 = []).
  { unfold s1. change writes with (queue WritePhase). rewrite enqueue_queue.
    cbn [queue]. rewrite Hw0. reflexivity. }
  assert (Hr1 : reads s1 = [cb]).
  { unfold s1. change reads with (queue ReadPhase). rewrite enqueue_queue.
    cbn [queue]. rewrite Hr0. reflexivity. }
  assert (Hl1 : log s1 = log st0) by apply enqueue_log.
  destruct (activation_step s1 Hs1) as (Hs2 & Hl2 & Hw2 & Hr2 & _).
  { rewrite Hw1. reflexivity. }
  { rewrite Hw1, Hr1. change (forallb returnsCb [cb] = true).
    cbn [forallb]. rewrite Hret. reflexivity. }
  rewrite Hw1, Hr1 in Hl2, Hw2, Hr2.
  change (log (activation s1) = log s1 ++ [Ran ReadPhase cb]) in Hl2.
  change (writes (activation s1) = toQueue WritePhase (requestsCb cb ++ [])) in Hw2.
  change (reads (activation s1) = toQueue ReadPhase (requestsCb cb ++ [])) in Hr2.
  rewrite app_nil_r in Hw2, Hr2. rewrite Hnoread in Hr2.
  fold (cycleWrites props popoutRef styled) in Hw2, Hquiet.
  pose proof (cycleWrites_cases props popoutRef styled) as Hcases.
  split; [apply ranDuring_app; rewrite Hl2, Hl1; reflexivity|].
  split; [exact Hw2|]. split; [exact Hr2|]. split; [exact Hcases|].
  split.
  - intros Hok.
    assert (Hretw : forallb returnsCb (cycleWrites props popoutRef styled) = true).
    { rewrite Hcases.
      destruct (Geometry.anchor props) as [a|]; [|reflexivity].
      destruct popoutRef as [p|]; [|reflexivity].
      destruct (Geometry.suppliedBoundary props) as [b|]; [|reflexivity].
      destruct styled; [reflexivity|].
      destruct Hok as [H | [H | [H | H]]]; discriminate H. }
    destruct (activation_step (activation s1) Hs2) as (Hs3 & Hl3 & _ & _ & Hraf3).
    { rewrite Hw2. exact Hretw. }
    { rewrite Hw2, Hr2, Hquiet. reflexivity. }
    rewrite Hw2, Hr2, Hquiet in Hl3, Hraf3.
    change (log (activation (activation s1)) =
            log (activation s1)
            ++ map (Ran WritePhase) (cycleWrites props popoutRef styled) ++ []) in Hl3.
    rewrite app_nil_r in Hl3.
    split; [apply ranDuring_app, Hl3|].
    apply settled_idle; [exact Hs3 | apply Hraf3; reflexivity].
  - intros Hst Hb Ha Hp.
    assert (Hws : writes (activation s1) = [colourBoundaryOf false; movePopout]).
    { rewrite Hw2.
      change (cycleWrites props popoutRef styled =
              [colourBoundaryOf false; movePopout]).
      rewrite Hcases, Hst.
      destruct (Geometry.anchor props) as [a|]; [|congruence].
      destruct popoutRef as [p|]; [|congruence].
      destruct (Geometry.suppliedBoundary props) as [b|]; [reflexivity|congruence]. }
    destruct (activation_first_write_throws (activation s1) (colourBoundaryOf false)
                [movePopout] Hs2 Hws eq_refl eq_refl) as (Hl3 & Hw3 & _ & Hraf3 & Ht3).
    split; [apply ranDuring_app, Hl3|]. repeat split; assumption.
Qed.

Lemma positioning_cycle_completes_witness :
  let props :=
    Geometry.sampleProps (Some Geometry.narrowBoundary) Geometry.Right true
                         Geometry.original in
  let popoutRef := Some Geometry.samplePopout in
  let s1 := run_task (positionPopout props popoutRef false) initial in
  let s2 := activation s1 in
  let s3 := activation s2 in
  ranDuring initial s2 = [Ran ReadPhase (readCallback props popoutRef false)]
  /\ writes s2 = cycleWrites props popoutRef false
  /\ reads s2 = []
  /\ cycleWrites props popoutRef false = [colourBoundaryOf false; movePopout]
  /\ (Geometry.suppliedBoundary props = None \/ false = true
      \/ Geometry.anchor props = None \/ popoutRef = None ->
      ranDuring s2 s3 = map (Ran WritePhase) (cycleWrites props popoutRef false)
      /\ idle s3)
  /\ (false = false ->
      Geometry.suppliedBoundary props <> None ->
      Geometry.anchor props <> None ->
      popoutRef <> None ->
      ranDuring s2 s3 = [Ran WritePhase (colourBoundaryOf false)]
      /\ writes s3 = [movePopout]
      /\ rafId s3 = None /\ timeoutId s3 = None).
Proof.
  apply (positioning_cycle_completes
           (Geometry.sampleProps (Some Geometry.narrowBoundary) Geometry.Right true
                                 Geometry.original)
           (Some Geometry.samplePopout) false initial).
  repeat split.
Defined.

End ComponentFacts.

(* ================================================================== *)
(** * The size of the placement, on doubles and on integers *)
(* ================================================================== *)

Module DoublesFacts.

Import PrimFloat.
Import Geometry.




(** The run of the counterexample: the difference of the edges, which
    prints as 50.099999999999994, is not the width, which prints as 50.1. *)
Example size_on_doubles :
  let r := Doubles.calculatePosition Doubles.sampleAnchor Doubles.sampleDims Right in
  PrimFloat.sub (right r) (left r) = 0x1.90cccccccccccp+5%float
  /\ PrimFloat.eqb (PrimFloat.sub (right r) (left r)) (Doubles.width Doubles.sampleDims)
     = false
  /\ right r = PrimFloat.add (left r) (Doubles.width Doubles.sampleDims).
Proof. vm_compute. repeat split. Qed.

(** With the integer width 50 the same run is exact. *)
Example size_on_doubles_integers :
  let dims := {| Doubles.height := 50; Doubles.width := 50 |} in
  let r := Doubles.calculatePosition Doubles.sampleAnchor dims Right in
  PrimFloat.sub (right r) (left r) = 50%float
  /\ PrimFloat.sub (bottom r) (top r) = 50%float.
Proof. vm_compute. repeat split. Qed.

End DoublesFacts.
